(** * ortelius-ms-dep-pkg-r: the dependency-package read service

    A shallow embedding of [main.py] (the [/health] probe and the
    [/msapi/deppkg] handler [getCompPkgDeps]) together with the properties
    its specification states about it.

    The handler talks to three outside parties: the user-validation
    service, the relational store and the license registry.  Every call to
    one of them is answered by a [World], which sees the whole transcript of
    the interaction so far, and is recorded in that transcript together with
    its answer.  The Python locals that outlive a failed attempt
    ([response_data], [valid_url]) are threaded through an exception/state
    monad next to the transcript. *)

From Stdlib Require Import ZArith Lia Ascii String.
From stdpp Require Import base strings list gmap pretty.

Local Open Scope string_scope.
Local Open Scope list_scope.
Local Open Scope Z_scope.

(** ** Python strings

    A [str] is modelled as a [string] whose characters are the code points
    below 256. *)

Module PyStr.

(** [str.isspace] on one character: TAB..CR, FS..US, SPACE, NEL, NBSP. *)
Definition isspace (c : ascii) : bool :=
  let n := N_of_ascii c in
  ((9 <=? n) && (n <=? 13) || (28 <=? n) && (n <=? 32)
   || (n =? 133) || (n =? 160))%N.

(** Truth value of a string: the empty string is falsy. *)
Definition truthy (s : string) : bool :=
  match s with EmptyString => false | String _ _ => true end.

Fixpoint lstrip (s : string) : string :=
  match s with
  | EmptyString => EmptyString
  | String c s' => if isspace c then lstrip s' else s
  end.

Fixpoint rstrip (s : string) : string :=
  match s with
  | EmptyString => EmptyString
  | String c s' =>
      match rstrip s' with
      | EmptyString => if isspace c then EmptyString else String c EmptyString
      | r => String c r
      end
  end.

(** [s.strip()] *)
Definition strip (s : string) : string := rstrip (lstrip s).

(** [c in s] for a one-character needle. *)
Fixpoint contains (c : ascii) (s : string) : bool :=
  match s with
  | EmptyString => false
  | String d s' => if Ascii.eqb c d then true else contains c s'
  end.

(** [s.split(sep)] for a one-character separator; never the empty list. *)
Fixpoint split (sep : ascii) (s : string) : list string :=
  match s with
  | EmptyString => [EmptyString]
  | String c s' =>
      if Ascii.eqb c sep then EmptyString :: split sep s'
      else match split sep s' with
           | h :: t => String c h :: t
           | [] => [String c EmptyString]
           end
  end.

(** [l[0]] on the result of a split. *)
Definition item0 (l : list string) : string := hd EmptyString l.

(** [str(n)] for an integer. *)
Definition str_int (n : Z) : string := pretty n.

End PyStr.

(** [isBlank]: [not (myString and myString.strip())]; the argument may be
    [None]. *)
Definition isBlank (myString : option string) : bool :=
  negb (match myString with
        | None => false
        | Some s => PyStr.truthy s && PyStr.truthy (PyStr.strip s)
        end).

(** ** Globals *)

Definition service_name : string := "ortelius-ms-dep-pkg-r".
Definition db_conn_retry : Z := 3.

Definition HTTP_200_OK : Z := 200.
Definition HTTP_401_UNAUTHORIZED : Z := 401.
Definition HTTP_422_UNPROCESSABLE_ENTITY : Z := 422.
Definition HTTP_500_INTERNAL_SERVER_ERROR : Z := 500.
Definition HTTP_503_SERVICE_UNAVAILABLE : Z := 503.

Definition spdx_url : string := "https://spdx.org/licenses/".
Definition osv_url : string := "https://osv.dev/vulnerability/".

(** ** Data model *)

(** One tuple of the dependency query: the eight selected columns.  [url]
    and [purl] may be NULL, which the handler tests for. *)
Record DependencyRow := {
  r_packagename : string;
  r_packageversion : string;
  r_name : string;
  r_url : option string;
  r_summary : string;
  r_fullcompname : string;
  r_purl : option string;
  r_pkgtype : string
}.

(** One tuple of the vulnerability query: id, summary, risklevel. *)
Record VulnRow := {
  v_id : string;
  v_summary : string;
  v_risklevel : string
}.

(** The dictionaries appended to [response_data]; the license ones have no
    ['risklevel'] key. *)
Record DepPkg := {
  packagename : string;
  packageversion : string;
  name : string;
  url : string;
  summary : string;
  fullcompname : string;
  risklevel : option string
}.

(** The value the handler returns: [{'data': response_data}]. *)
Record DepPkgs := { data : list DepPkg }.

(** The body of the health answer. *)
Record StatusMsg := {
  status : string;
  msg_service_name : option string
}.

(** A bound SQL parameter. *)
Inductive param :=
| PNone
| PInt (n : Z)
| PStr (s : string).

(** The exception classes the handler tells apart.  [InterfaceError] and
    [OperationalError] are the two classes named by the retry clause. *)
Inductive exn :=
| InterfaceError (msg : string)
| OperationalError (msg : string)
| HTTPException (status_code : Z) (detail : string)
| OtherException (msg : string).

(** [except (InterfaceError, OperationalError)] *)
Definition transient (e : exn) : bool :=
  match e with
  | InterfaceError _ | OperationalError _ => true
  | _ => false
  end.

(** [except HTTPException] *)
Definition is_http_exception (e : exn) : bool :=
  match e with HTTPException _ _ => true | _ => false end.

(** ** The outside world *)

Inductive cursor_id := MainCursor | VulnCursor.

Definition cookies := list (string * string).

(** The transcript: each outbound call with the answer it got.  A failed
    HTTP call raises an exception of the HTTP client, given by its
    message. *)
Inductive event :=
| EvGet (u : string) (c : cookies) (r : string + option Z)
| EvConnect (r : option exn)
| EvRelease
| EvExecute (c : cursor_id) (sql : string) (params : list param) (r : option exn)
| EvRowcount (n : Z)
| EvFetchRows (r : exn + list DependencyRow)
| EvFetchVulns (r : exn + list VulnRow)
| EvHead (u : string) (r : string + Z)
| EvLogError (msg : string)
| EvSleep (ms : Z)
| EvPrint (msg : string).

Record World := {
  validateuser_url : string;
  (** [requests.get]: an exception message, no result, or a status code *)
  requests_get : list event -> string -> cookies -> string + option Z;
  (** [engine.connect()] *)
  engine_connect : list event -> option exn;
  (** [cursor.execute(sql, params)] *)
  cursor_execute : list event -> cursor_id -> string -> list param -> option exn;
  (** [cursor.rowcount] *)
  cursor_rowcount : list event -> Z;
  (** [cursor.fetchall()] on the dependency and on the vulnerability cursor *)
  fetchall_rows : list event -> exn + list DependencyRow;
  fetchall_vulns : list event -> exn + list VulnRow;
  (** [requests.head]: an exception message or a status code *)
  requests_head : list event -> string -> string + Z;
  (** [str] of an [HTTPException], which the web framework defines *)
  http_exception_str : Z -> string -> string
}.

(** [str(err)] *)
Definition str_exn (w : World) (e : exn) : string :=
  match e with
  | InterfaceError m | OperationalError m | OtherException m => m
  | HTTPException c d => http_exception_str w c d
  end.

(** ** Exceptions and state *)

Record state := {
  log : list event;
  response_data : list DepPkg;
  valid_url : gmap string string
}.

Definition initial_state : state :=
  {| log := []; response_data := []; valid_url := ∅ |}.

(** How a piece of the handler ends.  [Diverge] is the loop budget of the
    model running out; no [except] clause catches it. *)
Inductive outcome (A : Type) :=
| Return (a : A)
| Raise (e : exn)
| Diverge.
Arguments Return {A} a.
Arguments Raise {A} e.
Arguments Diverge {A}.

Definition M (A : Type) : Type := state -> outcome A * state.

Definition ret {A} (a : A) : M A := fun s => (Return a, s).

Definition bind {A B} (m : M A) (k : A -> M B) : M B :=
  fun s =>
    match m s with
    | (Return a, s') => k a s'
    | (Raise e, s') => (Raise e, s')
    | (Diverge, s') => (Diverge, s')
    end.

Definition raise {A} (e : exn) : M A := fun s => (Raise e, s).

(** [try: m  except Exception as err: h err] *)
Definition try_except {A} (m : M A) (h : exn -> M A) : M A :=
  fun s =>
    match m s with
    | (Raise e, s') => h e s'
    | r => r
    end.

(** [with ... :] the release runs on every way out of the block. *)
Definition finally {A} (m : M A) (cleanup : state -> state) : M A :=
  fun s => match m s with (r, s') => (r, cleanup s') end.

Notation "'let!' x := m 'in' k" := (bind m (fun x => k))
  (at level 10, x name, m at level 100, k at level 200, only parsing).
Notation "'run!' m 'in' k" := (bind m (fun _ => k))
  (at level 10, m at level 100, k at level 200, only parsing).

Definition emit (e : event) (s : state) : state :=
  {| log := log s ++ [e];
     response_data := response_data s;
     valid_url := valid_url s |}.

Definition set_response_data (d : list DepPkg) (s : state) : state :=
  {| log := log s; response_data := d; valid_url := valid_url s |}.

Definition set_valid_url (m : gmap string string) (s : state) : state :=
  {| log := log s; response_data := response_data s; valid_url := m |}.

(** [response_data.append(d)] *)
Definition append_response (d : DepPkg) : M unit :=
  fun s => (Return tt, set_response_data (response_data s ++ [d]) s).

(** ** Calls to the outside *)

Section Calls.
Variable w : World.

Definition do_get (u : string) (c : cookies) : M (option Z) :=
  fun s =>
    let r := requests_get w (log s) u c in
    match r with
    | inl m => (Raise (OtherException m), emit (EvGet u c r) s)
    | inr res => (Return res, emit (EvGet u c r) s)
    end.

Definition do_connect : M unit :=
  fun s =>
    let r := engine_connect w (log s) in
    match r with
    | Some e => (Raise e, emit (EvConnect r) s)
    | None => (Return tt, emit (EvConnect r) s)
    end.

Definition do_execute (c : cursor_id) (sql : string) (params : list param)
  : M unit :=
  fun s =>
    let r := cursor_execute w (log s) c sql params in
    match r with
    | Some e => (Raise e, emit (EvExecute c sql params r) s)
    | None => (Return tt, emit (EvExecute c sql params r) s)
    end.

Definition do_rowcount : M Z :=
  fun s =>
    let n := cursor_rowcount w (log s) in
    (Return n, emit (EvRowcount n) s).

Definition do_fetch_rows : M (list DependencyRow) :=
  fun s =>
    let r := fetchall_rows w (log s) in
    match r with
    | inl e => (Raise e, emit (EvFetchRows r) s)
    | inr rows => (Return rows, emit (EvFetchRows r) s)
    end.

Definition do_fetch_vulns : M (list VulnRow) :=
  fun s =>
    let r := fetchall_vulns w (log s) in
    match r with
    | inl e => (Raise e, emit (EvFetchVulns r) s)
    | inr rows => (Return rows, emit (EvFetchVulns r) s)
    end.

Definition do_head (u : string) : M Z :=
  fun s =>
    let r := requests_head w (log s) u in
    match r with
    | inl m => (Raise (OtherException m), emit (EvHead u r) s)
    | inr code => (Return code, emit (EvHead u r) s)
    end.

Definition do_event (e : event) : M unit := fun s => (Return tt, emit e s).

(** [with engine.connect() as connection: body] *)
Definition with_connection {A} (body : M A) : M A :=
  run! do_connect in finally body (emit EvRelease).

(** *** [health] *)

(** The answer of the health route: the status code left on [response]
    and the returned dictionary. *)
Definition health : M (Z * StatusMsg) :=
  try_except
    (with_connection
       (run! do_execute MainCursor "SELECT 1" [] in
        let! rowcount := do_rowcount in
        if 0 <? rowcount
        then ret (HTTP_200_OK,
                  {| status := "UP"; msg_service_name := Some service_name |})
        else ret (HTTP_503_SERVICE_UNAVAILABLE,
                  {| status := "DOWN"; msg_service_name := None |})))
    (fun err =>
       run! do_event (EvPrint (str_exn w err)) in
       ret (HTTP_503_SERVICE_UNAVAILABLE,
            {| status := "DOWN"; msg_service_name := None |})).

End Calls.

(** ** [getCompPkgDeps] *)

Definition comp_sql : string :=
  "SELECT packagename, packageversion, name, url, summary, '', purl, pkgtype FROM dm_componentdeps where compid = %s and deptype = %s".

Definition app_sql : string :=
  "select distinct b.packagename, b.packageversion, b.name, b.url, b.summary, fulldomain(c.domainid, c.name), b.purl, b.pkgtype from dm.dm_applicationcomponent a, dm.dm_componentdeps b, dm.dm_component c where appid = %s and a.compid = b.compid and c.id = b.compid and b.deptype = %s".

Definition vuln_sql_by_package : string :=
  "select id, summary, risklevel from dm.dm_vulns where packagename = %s and packageversion = %s".

Definition vuln_sql_by_purl : string :=
  "select id, summary,risklevel from dm.dm_vulns where purl = %s".

(** [sleep_for = 0.2] seconds, kept in milliseconds; [str(0.2)]. *)
Definition sleep_for_ms : Z := 200.
Definition sleep_for_str : string := "0.2".

(** The statement and the [id] chosen from the two optional identifiers. *)
Definition select_query (compid appid : option Z) : string * option Z :=
  match compid with
  | Some _ => (comp_sql, compid)
  | None =>
      match appid with
      | Some _ => (app_sql, appid)
      | None => ("", compid)
      end
  end.

Definition id_param (id : option Z) : param :=
  match id with Some n => PInt n | None => PNone end.

(** [if (not url): url = 'https://spdx.org/licenses/'] *)
Definition default_url (u : option string) : string :=
  match u with
  | None => spdx_url
  | Some u' => if PyStr.truthy u' then u' else spdx_url
  end.

Definition license_entry (row : DependencyRow) (u : string) : DepPkg :=
  {| packagename := r_packagename row;
     packageversion := r_packageversion row;
     name := r_name row;
     url := u;
     summary := r_summary row;
     fullcompname := r_fullcompname row;
     risklevel := None |}.

Definition vuln_entry (row : DependencyRow) (v_row : VulnRow) : DepPkg :=
  {| packagename := r_packagename row;
     packageversion := r_packageversion row;
     name := v_id v_row;
     url := osv_url +:+ v_id v_row;
     summary := v_summary v_row;
     fullcompname := r_fullcompname row;
     risklevel := Some (v_risklevel v_row) |}.

Definition get_valid_url : M (gmap string string) :=
  fun s => (Return (valid_url s), s).

(** [valid_url[name] = u] *)
Definition store_valid_url (n u : string) : M unit :=
  fun s => (Return tt, set_valid_url (<[n := u]> (valid_url s)) s).

(** [valid_url[name]], a [KeyError] when the key is missing. *)
Definition read_valid_url (n : string) : M string :=
  fun s =>
    match valid_url s !! n with
    | Some u => (Return u, s)
    | None => (Raise (OtherException "KeyError"), s)
    end.

Definition get_response_data : M (list DepPkg) :=
  fun s => (Return (response_data s), s).

Definition diverge {A} : M A := fun s => (Diverge, s).

(** [for x in l: body x] *)
Fixpoint for_each {A} (l : list A) (body : A -> M unit) : M unit :=
  match l with
  | [] => ret tt
  | x :: l' => run! body x in for_each l' body
  end.

Section Handler.
Variable w : World.

(** Lines 152-160: the call to the validation service. *)
Definition authorize (c : cookies) : M unit :=
  try_except
    (let! result := do_get w (validateuser_url w +:+ "/msapi/validateuser") c in
     match result with
     | None =>
         raise (HTTPException HTTP_401_UNAUTHORIZED "Authorization Failed")
     | Some code =>
         if negb (code =? HTTP_200_OK)
         then raise (HTTPException HTTP_401_UNAUTHORIZED
                       ("Authorization Failed status_code=" +:+ PyStr.str_int code))
         else ret tt
     end)
    (fun err =>
       raise (HTTPException HTTP_401_UNAUTHORIZED
                ("Authorization Failed:" +:+ str_exn w err))).

(** Lines 197-220: one row of a license report. *)
Definition process_license (row : DependencyRow) : M unit :=
  let u := default_url (r_url row) in
  let! memo := get_valid_url in
  run! (match memo !! r_name row with
        | None =>
            let! code := do_head w u in
            if code =? 200
            then store_valid_url (r_name row) u
            else store_valid_url (r_name row) spdx_url
        | Some _ => ret tt
        end) in
  let! u' := read_valid_url (r_name row) in
  append_response (license_entry row u').

(** Lines 222-231: the statement and parameters of the vulnerability
    lookup; ['?' in purl] on [None] is a [TypeError]. *)
Definition vuln_query (row : DependencyRow) : M (string * list param) :=
  if isBlank (r_purl row)
  then ret (vuln_sql_by_package,
            [PStr (r_packagename row); PStr (r_packageversion row)])
  else
    match r_purl row with
    | None => raise (OtherException "TypeError")
    | Some purl =>
        let purl' :=
          if PyStr.contains "?" purl
          then PyStr.item0 (PyStr.split "?" purl)
          else purl in
        ret (vuln_sql_by_purl, [PStr purl'])
    end.

(** Lines 221-254: one row of a vulnerability report. *)
Definition process_cve (row : DependencyRow) : M unit :=
  let! q := vuln_query row in
  run! do_execute w VulnCursor (fst q) (snd q) in
  let! v_rows := do_fetch_vulns w in
  for_each v_rows (fun v_row => append_response (vuln_entry row v_row)).

Definition process_row (deptype : string) (row : DependencyRow) : M unit :=
  if String.eqb deptype "license"
  then process_license row
  else process_cve row.

(** Lines 170-257: one pass of the loop body. *)
Definition attempt_body (compid appid : option Z) (deptype : string)
  : M DepPkgs :=
  with_connection w
    (let q := select_query compid appid in
     let params := [id_param (snd q); PStr "license"] in
     run! do_execute w MainCursor (fst q) params in
     let! rows := do_fetch_rows w in
     run! (fun s => (Return tt, set_valid_url ∅ s)) in
     run! for_each rows (process_row deptype) in
     let! rd := get_response_data in
     ret {| data := rd |}).

Definition retry_message (ex : exn) (attempt no_of_retry : Z) : string :=
  "Database connection error: " +:+ str_exn w ex +:+ " - sleeping for "
  +:+ sleep_for_str +:+ "s and will retry (attempt #"
  +:+ PyStr.str_int attempt +:+ " of " +:+ PyStr.str_int no_of_retry +:+ ")".

(** Lines 168-273: [while True] with its [except] clause; [fuel] bounds
    the number of passes. *)
Fixpoint query_loop (fuel : nat) (compid appid : option Z) (deptype : string)
    (no_of_retry attempt : Z) : M DepPkgs :=
  match fuel with
  | O => diverge
  | S fuel' =>
      try_except (attempt_body compid appid deptype)
        (fun ex =>
           if transient ex then
             if attempt <? no_of_retry then
               run! do_event (EvLogError (retry_message ex attempt no_of_retry)) in
               run! do_event (EvSleep sleep_for_ms) in
               query_loop fuel' compid appid deptype no_of_retry (attempt + 1)
             else raise ex
           else raise ex)
  end.

(** Lines 162-279: everything after the authorization. *)
Definition query_phase (fuel : nat) (compid appid : option Z)
    (deptype : string) : M DepPkgs :=
  run! (fun s => (Return tt, set_response_data [] s)) in
  try_except (query_loop fuel compid appid deptype db_conn_retry 1)
    (fun err =>
       if is_http_exception err then raise err
       else
         run! do_event (EvPrint (str_exn w err)) in
         raise (HTTPException HTTP_500_INTERNAL_SERVER_ERROR (str_exn w err))).

Definition getCompPkgDeps_fuel (fuel : nat) (c : cookies)
    (compid appid : option Z) (deptype : string) : M DepPkgs :=
  run! authorize c in
  query_phase fuel compid appid deptype.

(** The handler; three passes of the loop are all it can make. *)
Definition getCompPkgDeps (c : cookies) (compid appid : option Z)
    (deptype : string) : M DepPkgs :=
  getCompPkgDeps_fuel (Z.to_nat db_conn_retry) c compid appid deptype.

End Handler.

(** ** The route: parameter validation and the mapping to HTTP answers *)

(** The fragment of regular expressions the route uses. *)
Inductive regex :=
| ReLit (s : string)
| ReAlt (a b : regex).

(** [re.match]: the pattern has to match at the start of the value. *)
Fixpoint re_match (r : regex) (s : string) : bool :=
  match r with
  | ReLit p => String.prefix p s
  | ReAlt a b => re_match a s || re_match b s
  end.

(** [regex="(?:license|cve)"] *)
Definition deptype_regex : regex := ReAlt (ReLit "license") (ReLit "cve").

Record query_params := {
  q_compid : option Z;
  q_appid : option Z;
  q_deptype : option string
}.

Inductive body :=
| BodyData (d : DepPkgs)
| BodyDetail (detail : string)
| BodyValidationError
| BodyServerError.

Record http_response := {
  resp_status : Z;
  resp_body : body
}.

(** [deptype: str = Query(..., regex=...)]: required, and checked against
    the pattern. *)
Definition validate_deptype (d : option string) : option string :=
  match d with
  | None => None
  | Some v => if re_match deptype_regex v then Some v else None
  end.

(** What the framework makes of the way the handler ends: a returned value
    is a 200, an [HTTPException] is its status with its detail, anything
    else is the bare 500 of the server. *)
Definition respond (r : outcome DepPkgs) : outcome http_response :=
  match r with
  | Return d => Return {| resp_status := HTTP_200_OK; resp_body := BodyData d |}
  | Raise (HTTPException code detail) =>
      Return {| resp_status := code; resp_body := BodyDetail detail |}
  | Raise _ =>
      Return {| resp_status := HTTP_500_INTERNAL_SERVER_ERROR;
                resp_body := BodyServerError |}
  | Diverge => Diverge
  end.

Definition deppkg_route (w : World) (c : cookies) (q : query_params)
  : state -> outcome http_response * state :=
  fun s =>
    match validate_deptype (q_deptype q) with
    | None =>
        (Return {| resp_status := HTTP_422_UNPROCESSABLE_ENTITY;
                   resp_body := BodyValidationError |}, s)
    | Some deptype =>
        let r := getCompPkgDeps w c (q_compid q) (q_appid q) deptype s in
        (respond (fst r), snd r)
    end.

(** ** Reading the transcript *)

(** The URLs of the HEAD calls, in order. *)
Fixpoint heads (l : list event) : list string :=
  match l with
  | [] => []
  | EvHead u _ :: l' => u :: heads l'
  | _ :: l' => heads l'
  end.

(** The durations slept, in order. *)
Fixpoint sleeps (l : list event) : list Z :=
  match l with
  | [] => []
  | EvSleep ms :: l' => ms :: sleeps l'
  | _ :: l' => sleeps l'
  end.

(** The number of connections asked of the pool. *)
Fixpoint connects (l : list event) : nat :=
  match l with
  | [] => O
  | EvConnect _ :: l' => S (connects l')
  | _ :: l' => connects l'
  end.

(** A call that reaches the database. *)
Definition is_db_event (e : event) : bool :=
  match e with
  | EvConnect _ | EvRelease | EvExecute _ _ _ _ | EvRowcount _
  | EvFetchRows _ | EvFetchVulns _ => true
  | _ => false
  end.

(** ** The health probe *)

(** The liveness probe seen from outside: a connection is handed out,
    [SELECT 1] runs, and the cursor reports at least one row. *)
Definition probe_succeeds (w : World) (l : list event) : bool :=
  match engine_connect w l with
  | Some _ => false
  | None =>
      let l1 := l ++ [EvConnect None] in
      match cursor_execute w l1 MainCursor "SELECT 1" [] with
      | Some _ => false
      | None =>
          0 <? cursor_rowcount w (l1 ++ [EvExecute MainCursor "SELECT 1" [] None])
      end
  end.

Definition msg_up : StatusMsg :=
  {| status := "UP"; msg_service_name := Some service_name |}.
Definition msg_down : StatusMsg :=
  {| status := "DOWN"; msg_service_name := None |}.

(** ** The vulnerability lookup, in the words of the specification *)

(** A purl made of white space only (the empty one included). *)
Definition whitespace_only (s : string) : bool :=
  forallb PyStr.isspace (list_ascii_of_string s).

(** The part of a string before its first [sep]; the whole string when
    there is none. *)
Fixpoint before (sep : ascii) (s : string) : string :=
  match s with
  | EmptyString => EmptyString
  | String c s' => if Ascii.eqb c sep then EmptyString else String c (before sep s')
  end.

(** Blank purl (absent, empty or white space): by package name and version;
    otherwise: by the purl without its [?]-suffix. *)
Definition vuln_lookup (row : DependencyRow) : string * list param :=
  match r_purl row with
  | None =>
      (vuln_sql_by_package,
       [PStr (r_packagename row); PStr (r_packageversion row)])
  | Some p =>
      if whitespace_only p
      then (vuln_sql_by_package,
            [PStr (r_packagename row); PStr (r_packageversion row)])
      else (vuln_sql_by_purl, [PStr (before "?" p)])
  end.

(** What one row of a vulnerability report leaves in the transcript. *)
Definition lookup_events (row : DependencyRow) (vs : list VulnRow) : list event :=
  [EvExecute VulnCursor (fst (vuln_lookup row)) (snd (vuln_lookup row)) None;
   EvFetchVulns (inr vs)].

(** The lookups one pass makes for [rows]. *)
Definition vuln_lookups (rows : list DependencyRow) (vss : list (list VulnRow))
  : list event :=
  concat (zip_with lookup_events rows vss).

(** The entries one pass appends for [rows], [vss] being the vulnerability
    records found for each row: one entry for each record. *)
Definition vuln_entries (rows : list DependencyRow) (vss : list (list VulnRow))
  : list DepPkg :=
  concat (zip_with (fun row vs => map (vuln_entry row) vs) rows vss).

(** ** Classes of calls *)

(** The calls the row loop can make. *)
Definition row_event (e : event) : Prop :=
  match e with
  | EvHead _ _ | EvExecute VulnCursor _ _ _ | EvFetchVulns _ => True
  | _ => False
  end.

(** The calls one pass can make after asking for its connection: the
    dependency query with the parameters the pass builds, its fetch, the
    calls of the row loop, and the release. *)
Definition pass_event (compid appid : option Z) (e : event) : Prop :=
  match e with
  | EvExecute MainCursor sql params _ =>
      sql = fst (select_query compid appid)
      /\ params = [id_param (snd (select_query compid appid)); PStr "license"]
  | EvExecute VulnCursor _ _ _ | EvFetchRows _ | EvFetchVulns _
  | EvHead _ _ | EvRelease => True
  | _ => False
  end.


(** A step that ends, extends the transcript by [row_event]s and only
    appends to [response_data]. *)
Definition row_frame (r : outcome unit * state) (s : state) : Prop :=
  fst r <> Diverge
  /\ exists new es,
       log (snd r) = log s ++ new
       /\ response_data (snd r) = response_data s ++ es
       /\ Forall row_event new.

(** One pass ends; it asks for one connection and then makes [pass_event]
    calls only; it only appends to [response_data], and what it returns is
    the list as it then stands. *)
Definition pass_frame (compid appid : option Z)
    (r : outcome DepPkgs * state) (s : state) : Prop :=
  fst r <> Diverge
  /\ exists c body es,
       log (snd r) = log s ++ EvConnect c :: body
       /\ Forall (pass_event compid appid) body
       /\ response_data (snd r) = response_data s ++ es
       /\ match fst r with
          | Return dd => data dd = response_data (snd r) /\ c = None
          | _ => True
          end.

(** No result of the dependency query has come in among [l]. *)
Definition no_rows_fetched (l : list event) : Prop :=
  forall rows, ~ In (EvFetchRows (inr rows)) l.

(** The HEAD calls among [new] are made for rows of one fetched result,
    one call for each of some rows with pairwise distinct license names. *)
Definition one_head_per_name (new : list event) : Prop :=
  exists rows validated,
    heads new = map (fun row => default_url (r_url row)) validated
    /\ NoDup (map r_name validated)
    /\ sublist validated rows
    /\ (validated = [] \/ In (EvFetchRows (inr rows)) new).

(** ** The retry machine of the specification *)

(** How the retry wrapper ends. *)
Inductive retry_result :=
| Done (d : DepPkgs)
| Failed (e : exn).

(** The machine of the specification: [retry_machine n s k r s'] says that
    from [Attempting n] in state [s] the wrapper ends during attempt [k]
    with [r], in state [s'].  A success is [Done]; a transient failure below
    the bound logs, sleeps and moves to [Attempting (n + 1)]; a transient
    failure at the bound, and any other failure at once, is [Failed]. *)
Inductive retry_machine (w : World) (compid appid : option Z) (d : string)
  : Z -> state -> Z -> retry_result -> state -> Prop :=
| rm_done n s dd s' :
    attempt_body w compid appid d s = (Return dd, s') ->
    retry_machine w compid appid d n s n (Done dd) s'
| rm_retry n s e s1 k r s' :
    attempt_body w compid appid d s = (Raise e, s1) ->
    transient e = true ->
    n < db_conn_retry ->
    retry_machine w compid appid d (n + 1)
      (emit (EvSleep sleep_for_ms)
         (emit (EvLogError (retry_message w e n db_conn_retry)) s1))
      k r s' ->
    retry_machine w compid appid d n s k r s'
| rm_exhausted n s e s' :
    attempt_body w compid appid d s = (Raise e, s') ->
    transient e = true ->
    n = db_conn_retry ->
    retry_machine w compid appid d n s n (Failed e) s'
| rm_fatal n s e s' :
    attempt_body w compid appid d s = (Raise e, s') ->
    transient e = false ->
    retry_machine w compid appid d n s n (Failed e) s'.

(** The way the loop ends, as the handler's [try] sees it. *)
Definition outcome_of (r : retry_result) : outcome DepPkgs :=
  match r with
  | Done dd => Return dd
  | Failed e => Raise e
  end.

(** What the handler makes of the way the retry wrapper ended
    (lines 275-279). *)
Definition finish (w : World) (r : retry_result) (s : state)
  : outcome DepPkgs * state :=
  match r with
  | Done dd => (Return dd, s)
  | Failed e =>
      if is_http_exception e then (Raise e, s)
      else (Raise (HTTPException HTTP_500_INTERNAL_SERVER_ERROR (str_exn w e)),
            emit (EvPrint (str_exn w e)) s)
  end.

(** The answer the route gives for the way the retry wrapper ended. *)
Definition answer_of (w : World) (r : retry_result) : http_response :=
  match r with
  | Done dd => {| resp_status := 200; resp_body := BodyData dd |}
  | Failed (HTTPException code detail) =>
      {| resp_status := code; resp_body := BodyDetail detail |}
  | Failed e =>
      {| resp_status := 500; resp_body := BodyDetail (str_exn w e) |}
  end.

(** ** Refused authorization *)

(** The address of the validation call. *)
Definition validate_endpoint (w : World) : string :=
  validateuser_url w +:+ "/msapi/validateuser".

(** The cause named in the detail of a refusal: the text of the transport
    error, or of the exception raised for a missing or non-200 result. *)
Definition refusal_cause (w : World) (r : string + option Z) : string :=
  match r with
  | inl m => m
  | inr None => str_exn w (HTTPException 401 "Authorization Failed")
  | inr (Some code) =>
      str_exn w (HTTPException 401
                   ("Authorization Failed status_code=" +:+ PyStr.str_int code))
  end.

(** ** The URL of a license entry *)

(** The row carries license name [n]. *)
Definition name_is (n : string) (row : DependencyRow) : bool :=
  String.eqb (r_name row) n.

(** What holds of the entry [e] emitted for [row], [rows] being the fetched
    rows and [new] the calls of the request: it repeats the row's fields,
    and its URL is not empty and is either the SPDX landing page or the
    (defaulted) URL of the first fetched row with the same license name, on
    which a HEAD call came back with 200. *)
Definition entry_from_memo (rows : list DependencyRow) (new : list event)
    (row : DependencyRow) (e : DepPkg) : Prop :=
  e = license_entry row (url e)
  /\ url e <> ""
  /\ (url e = spdx_url
      \/ exists first,
           find (name_is (r_name row)) rows = Some first
           /\ url e = default_url (r_url first)
           /\ In (EvHead (url e) (inr 200)) new).

(** The memo after the rows [done]: every row seen has its name in the memo,
    and every memo value is as [entry_from_memo] wants it. *)
Definition memo_ok (done : list DependencyRow) (m : gmap string string)
    (pre : list event) : Prop :=
  (forall row, In row done -> is_Some (m !! r_name row))
  /\ forall n u,
       m !! n = Some u ->
       u <> ""
       /\ (u = spdx_url
           \/ exists first,
                find (name_is n) done = Some first
                /\ u = default_url (r_url first)
                /\ In (EvHead u (inr 200)) pre).

(** The reading of the claim that ties every entry to its own row. *)
Definition own_url_or_fallback (row : DependencyRow) (e : DepPkg) : Prop :=
  url e = default_url (r_url row) \/ url e = spdx_url.

(** The claim in that reading, without its condition on the HEAD call,
    which only makes it weaker. *)
Definition license_urls_as_claimed : Prop :=
  forall (w : World) (c : cookies) (compid appid : option Z) (s : state)
         (dd : DepPkgs),
    fst (getCompPkgDeps w c compid appid "license" s) = Return dd ->
    exists rows,
      In (EvFetchRows (inr rows))
         (log (snd (getCompPkgDeps w c compid appid "license" s)))
      /\ Forall2 own_url_or_fallback rows (data dd).

(** ** Example worlds *)

(** Two dependency rows that share a license name, and a vulnerability
    record. *)
Definition row_flask : DependencyRow :=
  {| r_packagename := "flask"; r_packageversion := "1.2.2";
     r_name := "BSD-3-Clause"; r_url := Some "https://example.org/bsd";
     r_summary := ""; r_fullcompname := ""; r_purl := None;
     r_pkgtype := "pypi" |}.

Definition row_jinja : DependencyRow :=
  {| r_packagename := "jinja2"; r_packageversion := "3.0";
     r_name := "BSD-3-Clause"; r_url := Some "https://example.org/other";
     r_summary := ""; r_fullcompname := "";
     r_purl := Some "pkg:pypi/jinja2@3.0?os=linux"; r_pkgtype := "pypi" |}.

Definition vuln_one : VulnRow :=
  {| v_id := "GHSA-1"; v_summary := "s"; v_risklevel := "high" |}.

(** A store that is up: it returns the two rows, and the one record for
    every lookup; it refuses the empty statement.  The registry answers 200
    to every HEAD call. *)
Definition world_up : World :=
  {| validateuser_url := "http://validate";
     requests_get := fun _ _ _ => inr (Some 200);
     engine_connect := fun _ => None;
     cursor_execute := fun _ _ sql _ =>
       if String.eqb sql ""
       then Some (OtherException "can't execute an empty query")
       else None;
     cursor_rowcount := fun _ => 1;
     fetchall_rows := fun _ => inr [row_flask; row_jinja];
     fetchall_vulns := fun _ => inr [vuln_one];
     requests_head := fun _ _ => inr 200;
     http_exception_str := fun code detail => PyStr.str_int code +:+ ": " +:+ detail |}.

(** A validation service that answers 403. *)
Definition world_refusing : World :=
  {| validateuser_url := "http://validate";
     requests_get := fun _ _ _ => inr (Some 403);
     engine_connect := fun _ => None;
     cursor_execute := fun _ _ _ _ => None;
     cursor_rowcount := fun _ => 1;
     fetchall_rows := fun _ => inr [];
     fetchall_vulns := fun _ => inr [];
     requests_head := fun _ _ => inr 200;
     http_exception_str := fun code detail => PyStr.str_int code +:+ ": " +:+ detail |}.

(** A store whose pool refuses the first [failures] connections. *)
Definition world_flaky (failures : nat) : World :=
  {| validateuser_url := validateuser_url world_up;
     requests_get := requests_get world_up;
     engine_connect := fun l =>
       if (connects l <? failures)%nat
       then Some (OperationalError "connection refused")
       else None;
     cursor_execute := cursor_execute world_up;
     cursor_rowcount := cursor_rowcount world_up;
     fetchall_rows := fetchall_rows world_up;
     fetchall_vulns := fetchall_vulns world_up;
     requests_head := requests_head world_up;
     http_exception_str := http_exception_str world_up |}.

(** The row of the end-to-end scenario: its URL is empty. *)
Definition row_no_url : DependencyRow :=
  {| r_packagename := "flask"; r_packageversion := "1.2.2";
     r_name := "BSD-3-Clause"; r_url := Some "";
     r_summary := ""; r_fullcompname := ""; r_purl := None;
     r_pkgtype := "pypi" |}.

(** The end-to-end scenario: that one row, and a registry that answers 200
    for the SPDX landing page only. *)
Definition world_scenario : World :=
  {| validateuser_url := validateuser_url world_up;
     requests_get := requests_get world_up;
     engine_connect := engine_connect world_up;
     cursor_execute := cursor_execute world_up;
     cursor_rowcount := cursor_rowcount world_up;
     fetchall_rows := fun _ => inr [row_no_url];
     fetchall_vulns := fetchall_vulns world_up;
     requests_head := fun _ u =>
       if String.eqb u "https://spdx.org/licenses/" then inr 200 else inr 404;
     http_exception_str := http_exception_str world_up |}.

(** ** More readings of the transcript *)

(** The number of connections handed back to the pool. *)
Fixpoint releases (l : list event) : nat :=
  match l with
  | [] => O
  | EvRelease :: l' => S (releases l')
  | _ :: l' => releases l'
  end.

(** The number of connections the pool handed out. *)
Fixpoint connects_ok (l : list event) : nat :=
  match l with
  | [] => O
  | EvConnect None :: l' => S (connects_ok l')
  | _ :: l' => connects_ok l'
  end.

(** A call to the validation service. *)
Definition is_get (e : event) : bool :=
  match e with EvGet _ _ _ => true | _ => false end.

(** A HEAD call to the license registry. *)
Definition is_head (e : event) : bool :=
  match e with EvHead _ _ => true | _ => false end.

(** A call on the vulnerability cursor. *)
Definition is_vuln_call (e : event) : bool :=
  match e with
  | EvExecute VulnCursor _ _ _ | EvFetchVulns _ => true
  | _ => false
  end.



(** A registry that cannot be reached. *)
Definition world_registry_down : World :=
  {| validateuser_url := validateuser_url world_up;
     requests_get := requests_get world_up;
     engine_connect := engine_connect world_up;
     cursor_execute := cursor_execute world_up;
     cursor_rowcount := cursor_rowcount world_up;
     fetchall_rows := fetchall_rows world_up;
     fetchall_vulns := fetchall_vulns world_up;
     requests_head := fun _ _ => inl "connection timed out";
     http_exception_str := http_exception_str world_up |}.

(** A registry that knows none of the URLs. *)
Definition world_registry_404 : World :=
  {| validateuser_url := validateuser_url world_up;
     requests_get := requests_get world_up;
     engine_connect := engine_connect world_up;
     cursor_execute := cursor_execute world_up;
     cursor_rowcount := cursor_rowcount world_up;
     fetchall_rows := fetchall_rows world_up;
     fetchall_vulns := fetchall_vulns world_up;
     requests_head := fun _ _ => inr 404;
     http_exception_str := http_exception_str world_up |}.

(** A state left behind by an earlier request. *)
Definition state_with_leftovers : state :=
  {| log := [];
     response_data := [license_entry row_flask "https://example.org/stale"];
     valid_url := {[ "BSD-3-Clause" := "https://example.org/stale" ]} |}.

(** ** The health probe: its answer *)

(** C8: the health endpoint answers 200 with status UP and the service name
    exactly when the probe succeeds with at least one row, and 503 with
    status DOWN in every other case (the probe raising, or no row). *)
Theorem health_up_exactly_when_probe_succeeds (w : World) (s : state) :
  fst (health w s) =
    (if probe_succeeds w (log s)
     then Return (HTTP_200_OK, msg_up)
     else Return (HTTP_503_SERVICE_UNAVAILABLE, msg_down))
  /\ (fst (health w s) = Return (HTTP_200_OK, msg_up)
      <-> probe_succeeds w (log s) = true).
Proof.
  assert (E : fst (health w s) =
    (if probe_succeeds w (log s)
     then Return (HTTP_200_OK, msg_up)
     else Return (HTTP_503_SERVICE_UNAVAILABLE, msg_down))).
  { unfold health, probe_succeeds, try_except, with_connection, finally, bind,
      do_connect, do_execute, do_rowcount, do_event, ret.
    simpl.
    destruct (engine_connect w (log s)) as [e|]; simpl; [reflexivity|].
    destruct (cursor_execute w (log s ++ [EvConnect None]) MainCursor "SELECT 1" [])
      as [e|]; simpl; [reflexivity|].
    destruct (0 <? cursor_rowcount w _); reflexivity. }
  split; [exact E|].
  rewrite E. destruct (probe_succeeds w (log s)); split; intros H;
    try reflexivity; discriminate H.
Qed.

(** ** Closed forms of the per-row steps *)

(** Appending in a loop appends the mapped list. *)
Lemma for_each_append {A} (f : A -> DepPkg) (l : list A) (s : state) :
  for_each l (fun x => append_response (f x)) s
  = (Return tt, set_response_data (response_data s ++ map f l) s).
Proof.
  revert s. induction l as [|x l IH]; intros s.
  - simpl. unfold ret, set_response_data. rewrite app_nil_r. by destruct s.
  - simpl. unfold bind, append_response at 1. rewrite IH.
    unfold set_response_data. simpl. by rewrite <- app_assoc.
Qed.

Lemma process_license_eq (w : World) (row : DependencyRow) (s : state) :
  process_license w row s =
    match valid_url s !! r_name row with
    | Some u =>
        (Return tt,
         set_response_data (response_data s ++ [license_entry row u]) s)
    | None =>
        let u0 := default_url (r_url row) in
        match requests_head w (log s) u0 with
        | inl m => (Raise (OtherException m), emit (EvHead u0 (inl m)) s)
        | inr code =>
            let u' := if code =? 200 then u0 else spdx_url in
            (Return tt,
             set_response_data (response_data s ++ [license_entry row u'])
               (set_valid_url (<[r_name row := u']> (valid_url s))
                  (emit (EvHead u0 (inr code)) s)))
        end
    end.
Proof.
  unfold process_license, bind, get_valid_url, read_valid_url, append_response.
  destruct (valid_url s !! r_name row) as [u|] eqn:Hm.
  - unfold ret. by rewrite Hm.
  - unfold do_head. simpl.
    destruct (requests_head w (log s) (default_url (r_url row))) as [m|code];
      [reflexivity|].
    destruct (code =? 200); unfold store_valid_url; simpl;
      by rewrite lookup_insert_eq.
Qed.

(** ** The lookup of the code is the lookup of the specification *)

Lemma rstrip_empty (s : string) :
  PyStr.truthy (PyStr.rstrip s) = negb (whitespace_only s).
Proof.
  unfold whitespace_only. induction s as [|c s IH]; [reflexivity|].
  simpl. destruct (PyStr.rstrip s) eqn:Hr; simpl in IH.
  - destruct (forallb PyStr.isspace (list_ascii_of_string s)); [|discriminate IH].
    rewrite andb_true_r. by destruct (PyStr.isspace c).
  - destruct (forallb PyStr.isspace (list_ascii_of_string s)); [discriminate IH|].
    by rewrite andb_false_r.
Qed.

Lemma lstrip_whitespace_only (s : string) :
  whitespace_only (PyStr.lstrip s) = whitespace_only s.
Proof.
  unfold whitespace_only. induction s as [|c s IH]; [reflexivity|].
  simpl. destruct (PyStr.isspace c) eqn:Hc; [exact IH|].
  simpl. by rewrite Hc.
Qed.

(** [isBlank] holds of [None] and of the strings of white space. *)
Lemma isBlank_spec (p : option string) :
  isBlank p = match p with None => true | Some s => whitespace_only s end.
Proof.
  destruct p as [s|]; [|reflexivity]. unfold isBlank, PyStr.strip.
  rewrite rstrip_empty, lstrip_whitespace_only.
  destruct s; [reflexivity|]. simpl. by rewrite negb_involutive.
Qed.

Lemma split_item0 (sep : ascii) (s : string) :
  PyStr.item0 (PyStr.split sep s) = before sep s.
Proof.
  induction s as [|c s IH]; [reflexivity|]. simpl.
  destruct (Ascii.eqb c sep); [reflexivity|].
  destruct (PyStr.split sep s) as [|h t]; simpl in *; by rewrite <- IH.
Qed.

Lemma before_no_sep (sep : ascii) (s : string) :
  PyStr.contains sep s = false -> before sep s = s.
Proof.
  induction s as [|c s IH]; [reflexivity|]. simpl.
  rewrite (Ascii.eqb_sym c sep).
  destruct (Ascii.eqb sep c); [discriminate|]. intros H. by rewrite IH.
Qed.

Lemma vuln_query_eq (row : DependencyRow) (s : state) :
  vuln_query row s = (Return (vuln_lookup row), s).
Proof.
  unfold vuln_query, vuln_lookup. rewrite isBlank_spec.
  destruct (r_purl row) as [p|]; [|reflexivity].
  destruct (whitespace_only p); [reflexivity|].
  unfold ret. do 3 f_equal.
  destruct (PyStr.contains "?" p) eqn:Hc.
  - by rewrite split_item0.
  - by rewrite before_no_sep.
Qed.

Lemma process_cve_eq (w : World) (row : DependencyRow) (s : state) :
  process_cve w row s =
    let q := vuln_lookup row in
    match cursor_execute w (log s) VulnCursor (fst q) (snd q) with
    | Some e =>
        (Raise e, emit (EvExecute VulnCursor (fst q) (snd q) (Some e)) s)
    | None =>
        let s1 := emit (EvExecute VulnCursor (fst q) (snd q) None) s in
        match fetchall_vulns w (log s1) with
        | inl e => (Raise e, emit (EvFetchVulns (inl e)) s1)
        | inr vs =>
            (Return tt,
             set_response_data (response_data s ++ map (vuln_entry row) vs)
               (emit (EvFetchVulns (inr vs)) s1))
        end
    end.
Proof.
  unfold process_cve, bind. rewrite vuln_query_eq. unfold do_execute. simpl.
  destruct (cursor_execute w (log s) VulnCursor _ _) as [e|]; [reflexivity|].
  unfold do_fetch_vulns. simpl.
  destruct (fetchall_vulns w _) as [e|vs]; [reflexivity|].
  by rewrite for_each_append.
Qed.

(** The example of the specification: the qualifiers after [?] are not part
    of the key. *)
Example vuln_lookup_strips_qualifiers :
  vuln_lookup {| r_packagename := "foo"; r_packageversion := "1.0";
                 r_name := "MIT"; r_url := None; r_summary := "";
                 r_fullcompname := ""; r_purl := Some "pkg:pypi/foo@1.0?os=linux";
                 r_pkgtype := "pypi" |}
  = (vuln_sql_by_purl, [PStr "pkg:pypi/foo@1.0"]).
Proof. reflexivity. Qed.

(** ** What the row loop and one pass leave behind *)

Lemma row_event_pass_event (compid appid : option Z) (e : event) :
  row_event e -> pass_event compid appid e.
Proof. destruct e as [| | |[]| | | | | | |]; simpl; tauto. Qed.

Lemma process_row_frame (w : World) (d : string) (row : DependencyRow) (s : state) :
  row_frame (process_row w d row s) s.
Proof.
  unfold row_frame, process_row. destruct (String.eqb d "license").
  - rewrite process_license_eq.
    destruct (valid_url s !! r_name row) as [u|].
    + split; [discriminate|]. exists [], [license_entry row u]. simpl.
      by rewrite app_nil_r.
    + simpl. destruct (requests_head w (log s) _) as [m|code]; simpl.
      * split; [discriminate|]. eexists [_], []. simpl.
        rewrite app_nil_r. repeat split. by repeat constructor.
      * split; [discriminate|]. eexists [_], [_]. simpl.
        repeat split. by repeat constructor.
  - rewrite process_cve_eq. simpl.
    destruct (cursor_execute w (log s) VulnCursor _ _) as [e|]; simpl.
    + split; [discriminate|]. eexists [_], []. simpl.
      rewrite app_nil_r. repeat split. by repeat constructor.
    + destruct (fetchall_vulns w _) as [e|vs]; simpl.
      * split; [discriminate|]. eexists [_; _], []. simpl.
        rewrite app_nil_r, <- app_assoc. repeat split. by repeat constructor.
      * split; [discriminate|]. eexists [_; _], _. simpl.
        rewrite <- app_assoc. repeat split. by repeat constructor.
Qed.

Lemma row_loop_frame (w : World) (d : string) (rows : list DependencyRow) (s : state) :
  row_frame (for_each rows (process_row w d) s) s.
Proof.
  revert s. induction rows as [|row rows IH]; intros s.
  - split; [discriminate|]. exists [], []. simpl. by rewrite !app_nil_r.
  - simpl. unfold bind.
    destruct (process_row_frame w d row s) as [Hnd (new & es & Hl & Hr & Hf)].
    destruct (process_row w d row s) as [[[]|e|] s1]; simpl in *.
    + destruct (IH s1) as [Hnd' (new' & es' & Hl' & Hr' & Hf')].
      split; [exact Hnd'|]. exists (new ++ new'), (es ++ es').
      rewrite Hl', Hr', Hl, Hr, !app_assoc. repeat split.
      by apply Forall_app.
    + split; [discriminate|]. by exists new, es.
    + by destruct Hnd.
Qed.

(** One pass, with its calls to the store spelled out. *)
Lemma attempt_body_eq (w : World) (compid appid : option Z) (d : string) (s : state) :
  attempt_body w compid appid d s =
    match engine_connect w (log s) with
    | Some e => (Raise e, emit (EvConnect (Some e)) s)
    | None =>
        let s1 := emit (EvConnect None) s in
        let sql := fst (select_query compid appid) in
        let params := [id_param (snd (select_query compid appid)); PStr "license"] in
        match cursor_execute w (log s1) MainCursor sql params with
        | Some e =>
            (Raise e,
             emit EvRelease (emit (EvExecute MainCursor sql params (Some e)) s1))
        | None =>
            let s2 := emit (EvExecute MainCursor sql params None) s1 in
            match fetchall_rows w (log s2) with
            | inl e => (Raise e, emit EvRelease (emit (EvFetchRows (inl e)) s2))
            | inr rows =>
                let s3 := set_valid_url ∅ (emit (EvFetchRows (inr rows)) s2) in
                match for_each rows (process_row w d) s3 with
                | (Return _, s4) =>
                    (Return {| data := response_data s4 |}, emit EvRelease s4)
                | (Raise e, s4) => (Raise e, emit EvRelease s4)
                | (Diverge, s4) => (Diverge, emit EvRelease s4)
                end
            end
        end
    end.
Proof.
  unfold attempt_body, with_connection, bind, finally, do_connect. simpl.
  destruct (engine_connect w (log s)) as [e|]; [reflexivity|].
  unfold do_execute. simpl.
  destruct (cursor_execute w _ MainCursor _ _) as [e|]; [reflexivity|].
  unfold do_fetch_rows. simpl.
  destruct (fetchall_rows w _) as [e|rows]; [reflexivity|].
  destruct (for_each rows (process_row w d) _) as [[[]|e|] s4]; reflexivity.
Qed.

Lemma sleeps_app (a b : list event) : sleeps (a ++ b) = sleeps a ++ sleeps b.
Proof.
  induction a as [|e a IH]; [reflexivity|].
  destruct e; simpl; by rewrite IH.
Qed.

Lemma connects_app (a b : list event) :
  connects (a ++ b) = (connects a + connects b)%nat.
Proof.
  induction a as [|e a IH]; [reflexivity|].
  destruct e; simpl; by rewrite IH.
Qed.

Lemma heads_app (a b : list event) : heads (a ++ b) = heads a ++ heads b.
Proof.
  induction a as [|e a IH]; [reflexivity|].
  destruct e; simpl; by rewrite IH.
Qed.

Lemma pass_events_quiet (compid appid : option Z) (l : list event) :
  Forall (pass_event compid appid) l -> sleeps l = [] /\ connects l = O.
Proof.
  induction 1 as [|e l He _ [IH1 IH2]]; [done|].
  destruct e; simpl in *; try done.
Qed.

Lemma attempt_body_frame (w : World) (compid appid : option Z) (d : string) (s : state) :
  pass_frame compid appid (attempt_body w compid appid d s) s.
Proof.
  unfold pass_frame. rewrite attempt_body_eq.
  destruct (engine_connect w (log s)) as [e|]; simpl.
  { split; [discriminate|]. exists (Some e), [], []. by rewrite app_nil_r. }
  destruct (cursor_execute w _ MainCursor _ _) as [e|]; simpl.
  { split; [discriminate|]. eexists None, [_; _], []. simpl.
    rewrite app_nil_r, <- !app_assoc. repeat split. by repeat constructor. }
  destruct (fetchall_rows w _) as [e|rows]; simpl.
  { split; [discriminate|]. eexists None, [_; _; _], []. simpl.
    rewrite app_nil_r, <- !app_assoc. repeat split. by repeat constructor. }
  match goal with |- context [for_each rows (process_row w d) ?s3] =>
    destruct (row_loop_frame w d rows s3) as [Hnd (new & es & Hl & Hr & Hf)];
    destruct (for_each rows (process_row w d) s3) as [[[]|e|] s4]
  end; simpl in *; try (by destruct Hnd).
  all: split; [discriminate|].
  all: eexists None, (_ :: _ :: new ++ [EvRelease]), es.
  all: rewrite Hl, Hr, <- !app_assoc; simpl; repeat split.
  all: repeat (constructor; [by simpl|]).
  all: apply Forall_app; split;
    [eapply Forall_impl; [exact Hf|apply row_event_pass_event]
    |by repeat constructor].
Qed.

(** ** The retry wrapper *)

(** Induction on a run of the machine, with the names the proofs share:
    [Hb] is the pass of the current attempt, [Ht] says whether its error is
    transient, [IH] is the hypothesis for the attempts after a retry. *)
Ltac machine_induction :=
  induction 1 as [n s dd0 s' Hb|n s e s1 k r s' Hb Ht Hlt _ IH
                 |n s e s' Hb Ht Hn|n s e s' Hb Ht].

(** The loop follows the machine once it has fuel for the attempts left. *)
Lemma query_loop_machine (w : World) (compid appid : option Z) (d : string)
    (fuel : nat) :
  forall (n : Z) (s : state),
    1 <= n <= db_conn_retry ->
    (Z.to_nat (db_conn_retry - n) < fuel)%nat ->
    exists k r s',
      retry_machine w compid appid d n s k r s'
      /\ query_loop w fuel compid appid d db_conn_retry n s = (outcome_of r, s').
Proof.
  induction fuel as [|fuel IH]; intros n s Hn Hfuel; [lia|].
  simpl. unfold try_except.
  destruct (attempt_body_frame w compid appid d s) as [Hnd _].
  destruct (attempt_body w compid appid d s) as [[dd|e|] s1] eqn:Hb;
    simpl in Hnd; [| |by destruct Hnd].
  - exists n, (Done dd), s1. split; [by apply rm_done|reflexivity].
  - destruct (transient e) eqn:Ht.
    + destruct (n <? db_conn_retry) eqn:Hlt.
      * apply Z.ltb_lt in Hlt. unfold bind, do_event. simpl.
        destruct (IH (n + 1)
                    (emit (EvSleep sleep_for_ms)
                       (emit (EvLogError (retry_message w e n db_conn_retry)) s1)))
          as (k & r & s' & Hm & Hq); [lia|lia|].
        exists k, r, s'. split; [|exact Hq].
        by eapply rm_retry.
      * apply Z.ltb_ge in Hlt.
        exists n, (Failed e), s1. split; [|reflexivity].
        apply rm_exhausted; [done|done|lia].
    + exists n, (Failed e), s1. split; [|reflexivity]. by apply rm_fatal.
Qed.

(** The machine makes [k - n + 1] attempts, each asking for one connection,
    and sleeps 200ms between two of them. *)
Lemma retry_machine_log (w : World) (compid appid : option Z) (d : string)
    n s k r s' :
  retry_machine w compid appid d n s k r s' ->
  n <= k
  /\ exists new,
       log s' = log s ++ new
       /\ connects new = Z.to_nat (k - n + 1)
       /\ sleeps new = repeat sleep_for_ms (Z.to_nat (k - n)).
Proof.
  machine_induction.
  2: {
    destruct IH as [Hle (new & Hl & Hc & Hs)].
    split; [lia|].
    pose proof (attempt_body_frame w compid appid d s) as [_ F].
    rewrite Hb in F. simpl in F. destruct F as (c & body & es & Hl1 & Hf & _).
    apply pass_events_quiet in Hf as [Hq1 Hq2].
    simpl in Hl. rewrite Hl1 in Hl.
    exists ((EvConnect c :: body)
            ++ [EvLogError (retry_message w e n db_conn_retry);
                EvSleep sleep_for_ms] ++ new).
    split; [by rewrite Hl, <- !app_assoc|].
    rewrite connects_app, sleeps_app. simpl.
    rewrite Hq1, Hq2, Hc, Hs. simpl.
    replace (Z.to_nat (k - n)) with (S (Z.to_nat (k - (n + 1)))) by lia.
    split; [lia|reflexivity]. }
  all: split; [lia|].
  all: pose proof (attempt_body_frame w compid appid d s) as [_ F].
  all: rewrite Hb in F; simpl in F; destruct F as (c & body & es & Hl1 & Hf & _).
  all: apply pass_events_quiet in Hf as [Hq1 Hq2].
  all: exists (EvConnect c :: body); split; [exact Hl1|].
  all: simpl; rewrite Hq1, Hq2, Z.sub_diag; simpl; split; reflexivity.
Qed.

Lemma retry_machine_bound (w : World) (compid appid : option Z) (d : string)
    n s k r s' :
  retry_machine w compid appid d n s k r s' ->
  n <= db_conn_retry ->
  k <= db_conn_retry
  /\ forall e, r = Failed e -> transient e = true -> k = db_conn_retry.
Proof.
  machine_induction; intros Hle.
  - split; [lia|]. intros e He. discriminate He.
  - apply IH. lia.
  - split; [lia|]. intros e' _ _. exact Hn.
  - split; [lia|]. intros e' He Ht'. injection He as ->. congruence.
Qed.

(** C2: after the authorization the query sequence runs as the retry
    machine of the specification, started at attempt 1: the handler ends
    exactly as the machine does, in the state the machine ends in (with the
    text of the error printed when it failed).  It ends during some attempt
    [k] between 1 and 3, and the calls it has made by then hold [k]
    requests for a connection and [k - 1] sleeps, of 200ms each (one
    between two attempts); only failures of the two transient classes lead
    to another attempt.  A success during any attempt is answered 200 with
    the data; a failure is answered 500 with the text of the error as
    detail, and a transient error is the final one only when attempt 3
    raised it. *)
Theorem retry_policy (w : World) (compid appid : option Z) (d : string) (s : state) :
  exists k r s' new,
    retry_machine w compid appid d 1 (set_response_data [] s) k r s'
    /\ 1 <= k <= 3
    /\ query_phase w (Z.to_nat db_conn_retry) compid appid d s = finish w r s'
    /\ log (snd (query_phase w (Z.to_nat db_conn_retry) compid appid d s))
       = log s ++ new
    /\ connects new = Z.to_nat k
    /\ sleeps new = repeat 200 (Z.to_nat (k - 1))
    /\ (forall e, r = Failed e -> transient e = true -> k = 3)
    /\ respond (fst (query_phase w (Z.to_nat db_conn_retry) compid appid d s))
       = Return (answer_of w r).
Proof.
  destruct (query_loop_machine w compid appid d (Z.to_nat db_conn_retry) 1
              (set_response_data [] s))
    as (k & r & s' & Hm & Hq); [unfold db_conn_retry; lia
                               |unfold db_conn_retry; lia|].
  destruct (retry_machine_log _ _ _ _ _ _ _ _ _ Hm) as [Hle (new & Hl & Hc & Hs)].
  destruct (retry_machine_bound _ _ _ _ _ _ _ _ _ Hm) as [Hk Hlast];
    [unfold db_conn_retry; lia|].
  assert (Hrun : query_phase w (Z.to_nat db_conn_retry) compid appid d s
                 = finish w r s').
  { unfold query_phase, bind, try_except. cbv beta iota.
    rewrite Hq. destruct r as [dd|[m|m|code m|m]]; reflexivity. }
  simpl in Hl.
  assert (Hlog : exists new',
             log (snd (finish w r s')) = log s ++ new'
             /\ connects new' = connects new /\ sleeps new' = sleeps new).
  { destruct r as [dd|e]; simpl; [by exists new|].
    destruct (is_http_exception e); simpl; [by exists new|].
    exists (new ++ [EvPrint (str_exn w e)]).
    rewrite Hl, <- app_assoc, connects_app, sleeps_app. simpl.
    rewrite app_nil_r. split; [done|]. split; [lia|done]. }
  destruct Hlog as (new' & Hl' & Hc' & Hs').
  exists k, r, s', new'. rewrite Hrun.
  split; [exact Hm|]. split; [unfold db_conn_retry in Hk; lia|].
  split; [reflexivity|]. split; [exact Hl'|].
  split; [rewrite Hc', Hc; f_equal; lia|]. split; [by rewrite Hs'|].
  split; [exact Hlast|].
  destruct r as [dd|[m|m|code m|m]]; reflexivity.
Qed.

(** ** Authorization *)

Lemma getCompPkgDeps_authorized (w : World) (c : cookies)
    (compid appid : option Z) (d : string) (s : state) :
  requests_get w (log s) (validate_endpoint w) c = inr (Some 200) ->
  getCompPkgDeps w c compid appid d s
  = query_phase w (Z.to_nat db_conn_retry) compid appid d
      (emit (EvGet (validate_endpoint w) c (inr (Some 200))) s).
Proof.
  intros H. unfold getCompPkgDeps, getCompPkgDeps_fuel, bind at 1.
  unfold authorize, try_except, bind, do_get. fold (validate_endpoint w).
  by rewrite H.
Qed.

Lemma getCompPkgDeps_refused (w : World) (c : cookies)
    (compid appid : option Z) (d : string) (s : state) :
  let r := requests_get w (log s) (validate_endpoint w) c in
  r <> inr (Some 200) ->
  getCompPkgDeps w c compid appid d s
  = (Raise (HTTPException HTTP_401_UNAUTHORIZED
              ("Authorization Failed:" +:+ refusal_cause w r)),
     emit (EvGet (validate_endpoint w) c r) s).
Proof.
  intros r Hr.
  unfold getCompPkgDeps, getCompPkgDeps_fuel, bind at 1.
  unfold authorize, try_except, bind, do_get. fold (validate_endpoint w).
  fold r. destruct r as [m|[code|]] eqn:E; simpl; try reflexivity.
  destruct (code =? HTTP_200_OK) eqn:Hc; simpl; [|reflexivity].
  apply Z.eqb_eq in Hc. unfold HTTP_200_OK in Hc. by subst code.
Qed.

(** C4: when the validation call does not come back with status 200 (it
    raised, returned nothing, or returned another status), the request is
    answered 401 with a detail that starts with "Authorization Failed:" and
    goes on with the cause, and the only call made is the validation call
    itself: nothing reaches the database. *)
Theorem authorization_failure_short_circuits (w : World) (c : cookies)
    (compid appid : option Z) (d : string) (s : state) :
  let r := requests_get w (log s) (validate_endpoint w) c in
  let run := getCompPkgDeps w c compid appid d s in
  r <> inr (Some 200) ->
  respond (fst run)
  = Return {| resp_status := 401;
              resp_body := BodyDetail ("Authorization Failed:" +:+ refusal_cause w r) |}
  /\ exists new,
       log (snd run) = log s ++ new
       /\ new = [EvGet (validate_endpoint w) c r]
       /\ Forall (fun e => is_db_event e = false) new.
Proof.
  intros r run Hr. subst run r.
  rewrite (getCompPkgDeps_refused _ _ _ _ _ _ Hr). simpl.
  split; [done|]. eexists. repeat split. by repeat constructor.
Qed.

Lemma authorization_failure_short_circuits_witness :
  respond (fst (getCompPkgDeps world_refusing [] (Some 42) None "license" initial_state))
  = Return {| resp_status := 401;
              resp_body :=
                BodyDetail "Authorization Failed:401: Authorization Failed status_code=403" |}
  /\ log (snd (getCompPkgDeps world_refusing [] (Some 42) None "license" initial_state))
     = [EvGet "http://validate/msapi/validateuser" [] (inr (Some 403))].
Proof.
  destruct (authorization_failure_short_circuits world_refusing []
              (Some 42) None "license" initial_state)
    as (H1 & new & H2 & H3 & _).
  - simpl. discriminate.
  - split; [exact H1|]. rewrite H2, H3. reflexivity.
Defined.

(** ** The query phase as a whole *)

Lemma query_phase_machine (w : World) (compid appid : option Z) (d : string) (s : state) :
  exists k r s',
    retry_machine w compid appid d 1 (set_response_data [] s) k r s'
    /\ query_phase w (Z.to_nat db_conn_retry) compid appid d s = finish w r s'.
Proof.
  destruct (query_loop_machine w compid appid d (Z.to_nat db_conn_retry) 1
              (set_response_data [] s))
    as (k & r & s' & Hm & Hq); [unfold db_conn_retry; lia
                               |unfold db_conn_retry; lia|].
  exists k, r, s'. split; [exact Hm|].
  unfold query_phase, bind, try_except. cbv beta iota.
  rewrite Hq. destruct r as [dd|[m|m|code m|m]]; reflexivity.
Qed.

(** ** Transcripts of whole requests *)

(** A property of transcripts that holds of every pass and of the pause
    between two passes, and is kept by concatenation, holds of what the
    retry machine adds. *)
Lemma retry_machine_transcript (P : list event -> Prop) (w : World)
    (compid appid : option Z) (d : string) :
  (forall a b, P a -> P b -> P (a ++ b)) ->
  (forall s, exists new,
      log (snd (attempt_body w compid appid d s)) = log s ++ new /\ P new) ->
  (forall m, P [EvLogError m; EvSleep sleep_for_ms]) ->
  forall n s k r s',
    retry_machine w compid appid d n s k r s' ->
    exists new, log s' = log s ++ new /\ P new.
Proof.
  intros Happ Hpass Hpause n s k r s'. machine_induction.
  2: {
    destruct IH as (new & Hl & Hnew).
    destruct (Hpass s) as (new1 & Hl1 & Hnew1). rewrite Hb in Hl1.
    simpl in Hl1, Hl. rewrite Hl1 in Hl.
    exists (new1 ++ [EvLogError (retry_message w e n db_conn_retry);
                     EvSleep sleep_for_ms] ++ new).
    split; [by rewrite Hl, <- !app_assoc|].
    apply Happ; [done|]. apply Happ; [apply Hpause|done]. }
  all: destruct (Hpass s) as (new1 & Hl1 & Hnew1); rewrite Hb in Hl1.
  all: by exists new1.
Qed.

(** The same for everything after the authorization, the printed message
    included. *)
Lemma query_phase_transcript (P : list event -> Prop) (w : World)
    (compid appid : option Z) (d : string) :
  (forall a b, P a -> P b -> P (a ++ b)) ->
  (forall s, exists new,
      log (snd (attempt_body w compid appid d s)) = log s ++ new /\ P new) ->
  (forall m, P [EvLogError m; EvSleep sleep_for_ms]) ->
  (forall m, P [EvPrint m]) ->
  forall s, exists new,
    log (snd (query_phase w (Z.to_nat db_conn_retry) compid appid d s))
    = log s ++ new
    /\ P new.
Proof.
  intros Happ Hpass Hpause Hprint s.
  destruct (query_phase_machine w compid appid d s) as (k & r & s' & Hm & ->).
  destruct (retry_machine_transcript P w compid appid d Happ Hpass Hpause
              _ _ _ _ _ Hm) as (new & Hl & Hnew).
  simpl in Hl.
  destruct r as [dd|e]; simpl; [by exists new|].
  destruct (is_http_exception e); simpl; [by exists new|].
  exists (new ++ [EvPrint (str_exn w e)]).
  split; [by rewrite Hl, <- app_assoc|]. apply Happ; [done|apply Hprint].
Qed.

(** And for the whole handler, the validation call included. *)
Lemma getCompPkgDeps_transcript (P : list event -> Prop) (w : World)
    (c : cookies) (compid appid : option Z) (d : string) :
  (forall a b, P a -> P b -> P (a ++ b)) ->
  (forall s, exists new,
      log (snd (attempt_body w compid appid d s)) = log s ++ new /\ P new) ->
  (forall m, P [EvLogError m; EvSleep sleep_for_ms]) ->
  (forall m, P [EvPrint m]) ->
  (forall r, P [EvGet (validate_endpoint w) c r]) ->
  forall s, exists new,
    log (snd (getCompPkgDeps w c compid appid d s)) = log s ++ new /\ P new.
Proof.
  intros Happ Hpass Hpause Hprint Hget s.
  destruct (decide (requests_get w (log s) (validate_endpoint w) c
                    = inr (Some 200))) as [Hok|Hno].
  - rewrite (getCompPkgDeps_authorized _ _ _ _ _ _ Hok).
    destruct (query_phase_transcript P w compid appid d Happ Hpass Hpause Hprint
                (emit (EvGet (validate_endpoint w) c (inr (Some 200))) s))
      as (new & Hl & Hnew).
    simpl in Hl.
    exists ([EvGet (validate_endpoint w) c (inr (Some 200))] ++ new).
    split; [by rewrite Hl, <- app_assoc|]. apply Happ; [apply Hget|done].
  - rewrite (getCompPkgDeps_refused _ _ _ _ _ _ Hno). simpl.
    eexists. split; [reflexivity|]. apply Hget.
Qed.

(** ** The SQL-level filter *)













(** ** Identifier selection *)


(** ** A request without identifiers *)

(** C10: a request with neither [compid] nor [appid] that passes the
    authorization and gets its connection executes the empty statement with
    the parameters [(None, 'license')]; when the store raises an ordinary
    error on it, the request is answered 500 with the text of that error as
    detail, after this one attempt. *)
Theorem missing_identifiers_give_500 (w : World) (c : cookies) (d : string)
    (s : state) (m : string) :
  let auth := EvGet (validate_endpoint w) c (inr (Some 200)) in
  let run := getCompPkgDeps w c None None d s in
  requests_get w (log s) (validate_endpoint w) c = inr (Some 200) ->
  engine_connect w (log s ++ [auth]) = None ->
  cursor_execute w ((log s ++ [auth]) ++ [EvConnect None]) MainCursor
    "" [PNone; PStr "license"] = Some (OtherException m) ->
  respond (fst run)
  = Return {| resp_status := 500; resp_body := BodyDetail m |}
  /\ log (snd run)
     = log s ++ [auth; EvConnect None;
                 EvExecute MainCursor "" [PNone; PStr "license"]
                   (Some (OtherException m));
                 EvRelease; EvPrint m].
Proof.
  intros auth run Hauth Hconn Hexec.
  assert (Hb : attempt_body w None None d (set_response_data [] (emit auth s))
               = (Raise (OtherException m),
                  emit EvRelease
                    (emit (EvExecute MainCursor "" [PNone; PStr "license"]
                             (Some (OtherException m)))
                       (emit (EvConnect None)
                          (set_response_data [] (emit auth s)))))).
  { rewrite attempt_body_eq. simpl. rewrite Hconn. simpl. by rewrite Hexec. }
  assert (Hrun : run
                 = (Raise (HTTPException HTTP_500_INTERNAL_SERVER_ERROR m),
                    emit (EvPrint m)
                      (emit EvRelease
                         (emit (EvExecute MainCursor "" [PNone; PStr "license"]
                                  (Some (OtherException m)))
                            (emit (EvConnect None)
                               (set_response_data [] (emit auth s))))))).
  { subst run. rewrite (getCompPkgDeps_authorized _ _ _ _ _ _ Hauth). fold auth.
    unfold query_phase, bind. cbv beta iota.
    change (Z.to_nat db_conn_retry) with 3%nat.
    cbn [query_loop]. unfold try_except. by rewrite Hb. }
  rewrite Hrun. simpl. split; [reflexivity|]. by rewrite <- !app_assoc.
Qed.

Lemma missing_identifiers_give_500_witness :
  respond (fst (getCompPkgDeps world_up [] None None "license" initial_state))
  = Return {| resp_status := 500;
              resp_body := BodyDetail "can't execute an empty query" |}
  /\ log (snd (getCompPkgDeps world_up [] None None "license" initial_state))
     = [EvGet "http://validate/msapi/validateuser" [] (inr (Some 200));
        EvConnect None;
        EvExecute MainCursor "" [PNone; PStr "license"]
          (Some (OtherException "can't execute an empty query"));
        EvRelease; EvPrint "can't execute an empty query"].
Proof.
  apply (missing_identifiers_give_500 world_up [] "license" initial_state
           "can't execute an empty query"); reflexivity.
Defined.

(** ** Validation of [deptype] *)

Lemma validate_deptype_accepts (v : string) :
  validate_deptype (Some v) = Some v
  <-> String.prefix "license" v = true \/ String.prefix "cve" v = true.
Proof.
  unfold validate_deptype, deptype_regex. simpl re_match.
  destruct (String.prefix "license" v), (String.prefix "cve" v); simpl;
    split; intros H; try done; try (by left); try (by right);
    destruct H; discriminate.
Qed.

(** C7 (fails on the code): the pattern is matched at the start of the
    value only, so [licensex] passes the validation, the handler body runs,
    and since the value is not ['license'] the rows are treated as a
    vulnerability report; the answer is 200, not a validation failure. *)
Theorem deptype_with_trailing_text_is_accepted :
  validate_deptype (Some "licensex") = Some "licensex"
  /\ fst (deppkg_route world_up []
            {| q_compid := Some 42; q_appid := None;
               q_deptype := Some "licensex" |} initial_state)
     = Return {| resp_status := 200;
                 resp_body :=
                   BodyData {| data := [vuln_entry row_flask vuln_one;
                                        vuln_entry row_jinja vuln_one] |} |}.
Proof. split; vm_compute; reflexivity. Qed.

(** ** License reports: the memo of validated URLs *)

Lemma process_row_license (w : World) (row : DependencyRow) :
  process_row w "license" row = process_license w row.
Proof. reflexivity. Qed.

(** In a license report the row loop fails only on the HTTP client. *)
Lemma license_loop_raises (w : World) (rows : list DependencyRow) :
  forall s e s',
    for_each rows (process_row w "license") s = (Raise e, s') ->
    transient e = false.
Proof.
  induction rows as [|row rows IH]; intros s e s' H; [discriminate H|].
  simpl in H. unfold bind in H. rewrite process_row_license, process_license_eq in H.
  destruct (valid_url s !! r_name row) as [u|].
  - by eapply IH.
  - simpl in H. destruct (requests_head w (log s) _) as [m|code].
    + by injection H as <- _.
    + by eapply IH.
Qed.

(** The HEAD calls of the row loop are made for rows with pairwise distinct
    license names, none of them in the memo the loop started with. *)
Lemma license_loop_heads (w : World) (rows : list DependencyRow) :
  forall s,
    exists validated new,
      log (snd (for_each rows (process_row w "license") s)) = log s ++ new
      /\ heads new = map (fun row => default_url (r_url row)) validated
      /\ sublist validated rows
      /\ NoDup (map r_name validated)
      /\ Forall (fun row => valid_url s !! r_name row = None) validated.
Proof.
  induction rows as [|row rows IH]; intros s.
  - exists [], []. simpl. rewrite app_nil_r. repeat split; by constructor.
  - simpl. unfold bind. rewrite process_row_license, process_license_eq.
    destruct (valid_url s !! r_name row) as [u|] eqn:Hm.
    + destruct (IH (set_response_data (response_data s ++ [license_entry row u]) s))
        as (validated & new & Hl & Hh & Hsub & Hnd & Hf).
      exists validated, new. repeat split; try done. by apply sublist_cons.
    + simpl. destruct (requests_head w (log s) _) as [m|code] eqn:Hh.
      * exists [row], [EvHead (default_url (r_url row)) (inl m)]. simpl.
        repeat split.
        -- apply sublist_skip, sublist_nil_l.
        -- apply NoDup_singleton.
        -- by repeat constructor.
      * match goal with |- context [for_each rows _ ?s1] =>
          destruct (IH s1) as (validated & new & Hl & Hhd & Hsub & Hnd & Hf)
        end.
        simpl in Hl, Hf.
        exists (row :: validated),
               (EvHead (default_url (r_url row)) (inr code) :: new).
        split; [by rewrite Hl, <- app_assoc|].
        split; [simpl; by rewrite Hhd|].
        split; [by apply sublist_skip|].
        split.
        -- simpl. apply NoDup_cons. split; [|exact Hnd].
           intros Hin. apply list_elem_of_fmap in Hin as (row' & Heq & Hin).
           rewrite Forall_forall in Hf. specialize (Hf _ Hin).
           rewrite <- Heq, lookup_insert_eq in Hf. discriminate Hf.
        -- constructor; [exact Hm|].
           eapply Forall_impl; [exact Hf|]. intros row' Hrow'. simpl in Hrow'.
           destruct (decide (r_name row = r_name row')) as [Heq|Hne].
           ++ rewrite Heq, lookup_insert_eq in Hrow'. discriminate Hrow'.
           ++ by rewrite lookup_insert_ne in Hrow'.
Qed.

Lemma one_head_per_name_quiet (new : list event) :
  heads new = [] -> one_head_per_name new.
Proof.
  intros H. exists [], []. rewrite H. repeat split; try by constructor.
Qed.

Lemma one_head_per_name_frame (a b c : list event) :
  heads a = [] -> heads c = [] ->
  one_head_per_name b -> one_head_per_name (a ++ b ++ c).
Proof.
  intros Ha Hc (rows & validated & Hh & Hnd & Hsub & Hin).
  exists rows, validated. rewrite !heads_app, Ha, Hc, app_nil_r. simpl.
  repeat split; try done.
  destruct Hin as [->|Hin]; [by left|right].
  apply in_or_app. right. apply in_or_app. by left.
Qed.

Lemma attempt_license_heads (w : World) (compid appid : option Z) (s : state) :
  exists new,
    log (snd (attempt_body w compid appid "license" s)) = log s ++ new
    /\ one_head_per_name new
    /\ (forall e, fst (attempt_body w compid appid "license" s) = Raise e ->
                  transient e = true -> heads new = []).
Proof.
  rewrite attempt_body_eq.
  destruct (engine_connect w (log s)) as [e|]; simpl.
  { eexists [_]. repeat split. by apply one_head_per_name_quiet. }
  destruct (cursor_execute w _ MainCursor _ _) as [e|]; simpl.
  { eexists [_; _; _]. rewrite <- !app_assoc. repeat split.
    by apply one_head_per_name_quiet. }
  destruct (fetchall_rows w _) as [e|rows]; simpl.
  { eexists [_; _; _; _]. rewrite <- !app_assoc. repeat split.
    by apply one_head_per_name_quiet. }
  match goal with |- context [for_each rows _ ?s3] =>
    destruct (license_loop_heads w rows s3)
      as (validated & new & Hl & Hh & Hsub & Hnd & _);
    pose proof (license_loop_raises w rows s3) as Hraise;
    destruct (for_each rows (process_row w "license") s3) as [[[]|e|] s4]
  end; simpl in *.
  all: eexists ([_; _; _] ++ new ++ [EvRelease]).
  all: split; [rewrite Hl, <- !app_assoc; reflexivity|].
  all: split;
    [exists rows, validated; rewrite !heads_app, Hh; simpl;
     rewrite app_nil_r; repeat split; try done; right; simpl; tauto|].
  all: intros e' H Ht; try discriminate H.
  injection H as <-.
  rewrite (Hraise _ _ eq_refl) in Ht. discriminate Ht.
Qed.

Lemma retry_machine_license_heads (w : World) (compid appid : option Z)
    n s k r s' :
  retry_machine w compid appid "license" n s k r s' ->
  exists new, log s' = log s ++ new /\ one_head_per_name new.
Proof.
  machine_induction.
  2: {
    destruct IH as (new & Hl & Hone).
    destruct (attempt_license_heads w compid appid s) as (new1 & Hl1 & _ & Hq).
    rewrite Hb in Hl1, Hq. simpl in Hl1, Hq, Hl. specialize (Hq _ eq_refl Ht).
    exists ((new1 ++ [EvLogError (retry_message w e n db_conn_retry);
                      EvSleep sleep_for_ms]) ++ new ++ []).
    split; [rewrite Hl, Hl1, app_nil_r, <- !app_assoc; reflexivity|].
    apply one_head_per_name_frame; [|done|done].
    by rewrite heads_app, Hq. }
  all: destruct (attempt_license_heads w compid appid s) as (new1 & Hl1 & Hone & _).
  all: rewrite Hb in Hl1; simpl in Hl1; by exists new1.
Qed.

(** C6: during one license request the HEAD calls are made for rows of the
    fetched result, one call for each of some rows whose license names are
    pairwise distinct; so no license name is validated twice, however many
    rows carry it. *)
Theorem one_head_call_per_license_name (w : World) (c : cookies)
    (compid appid : option Z) (s : state) :
  exists new rows validated,
    log (snd (getCompPkgDeps w c compid appid "license" s)) = log s ++ new
    /\ heads new = map (fun row => default_url (r_url row)) validated
    /\ NoDup (map r_name validated)
    /\ sublist validated rows
    /\ (validated = [] \/ In (EvFetchRows (inr rows)) new)
    /\ (length (heads new)
        <= length (remove_dups (map r_name rows)))%nat.
Proof.
  assert (H : exists new,
             log (snd (getCompPkgDeps w c compid appid "license" s)) = log s ++ new
             /\ one_head_per_name new).
  { destruct (decide (requests_get w (log s) (validate_endpoint w) c
                      = inr (Some 200))) as [Hok|Hno].
    - rewrite (getCompPkgDeps_authorized _ _ _ _ _ _ Hok).
      destruct (query_phase_machine w compid appid "license"
                  (emit (EvGet (validate_endpoint w) c (inr (Some 200))) s))
        as (k & r & s' & Hm & ->).
      apply retry_machine_license_heads in Hm as (new & Hl & Hone).
      simpl in Hl.
      destruct r as [dd|e]; simpl; [|destruct (is_http_exception e); simpl].
      + exists ([EvGet (validate_endpoint w) c (inr (Some 200))] ++ new ++ []).
        split; [by rewrite Hl, app_nil_r, <- app_assoc|].
        by apply one_head_per_name_frame.
      + exists ([EvGet (validate_endpoint w) c (inr (Some 200))] ++ new ++ []).
        split; [by rewrite Hl, app_nil_r, <- app_assoc|].
        by apply one_head_per_name_frame.
      + exists ([EvGet (validate_endpoint w) c (inr (Some 200))] ++ new
                ++ [EvPrint (str_exn w e)]).
        split; [by rewrite Hl, <- !app_assoc|].
        by apply one_head_per_name_frame.
    - rewrite (getCompPkgDeps_refused _ _ _ _ _ _ Hno). simpl.
      eexists. split; [reflexivity|]. by apply one_head_per_name_quiet. }
  destruct H as (new & Hl & rows & validated & Hh & Hnd & Hsub & Hin).
  exists new, rows, validated. repeat split; try done.
  rewrite Hh, length_map, <- (length_map r_name validated).
  apply submseteq_length, NoDup_submseteq; [exact Hnd|].
  intros x Hx. apply elem_of_remove_dups.
  apply list_elem_of_fmap in Hx as (row & -> & Hrow).
  apply list_elem_of_fmap. exists row. split; [done|].
  by apply (sublist_subseteq _ _ Hsub).
Qed.

(** ** License reports: the URL of every entry *)

Lemma default_url_nonempty (u : option string) : default_url u <> "".
Proof. destruct u as [[|a u]|]; simpl; discriminate. Qed.

Lemma find_app_l {A} (f : A -> bool) (l1 l2 : list A) (x : A) :
  find f l1 = Some x -> find f (l1 ++ l2) = Some x.
Proof.
  induction l1 as [|y l1 IH]; [discriminate|]. simpl.
  destruct (f y); [done|exact IH].
Qed.

Lemma find_app_r {A} (f : A -> bool) (l1 l2 : list A) :
  (forall y, In y l1 -> f y = false) -> find f (l1 ++ l2) = find f l2.
Proof.
  induction l1 as [|y l1 IH]; intros H; [reflexivity|]. simpl.
  rewrite (H y (or_introl eq_refl)). apply IH. intros z Hz. apply H. by right.
Qed.

Lemma name_is_eq (n : string) (row : DependencyRow) :
  name_is n row = true <-> r_name row = n.
Proof. unfold name_is. apply String.eqb_eq. Qed.

Lemma memo_unseen (done : list DependencyRow) (m : gmap string string)
    (pre : list event) (n : string) :
  memo_ok done m pre -> m !! n = None ->
  forall row, In row done -> name_is n row = false.
Proof.
  intros [Hseen _] Hn row Hrow.
  destruct (name_is n row) eqn:E; [|reflexivity].
  apply name_is_eq in E. specialize (Hseen row Hrow).
  rewrite E, Hn in Hseen. by destruct Hseen.
Qed.

(** A memo hit keeps the invariant. *)
Lemma memo_ok_hit (done : list DependencyRow) (m : gmap string string)
    (pre : list event) (row : DependencyRow) (u : string) :
  memo_ok done m pre -> m !! r_name row = Some u ->
  memo_ok (done ++ [row]) m pre.
Proof.
  intros [Hseen Hval] Hm. split.
  - intros row' Hin. apply in_app_or in Hin as [Hin|[<-|[]]]; [by apply Hseen|].
    by rewrite Hm.
  - intros n v Hn. destruct (Hval n v Hn) as [Hne [Hs|(first & Hf & Hu & Hin)]].
    + split; [done|by left].
    + split; [done|right]. exists first. split; [by apply find_app_l|done].
Qed.

(** A memo miss followed by an answered HEAD call keeps it too. *)
Lemma memo_ok_miss (done : list DependencyRow) (m : gmap string string)
    (pre : list event) (row : DependencyRow) (code : Z) :
  memo_ok done m pre -> m !! r_name row = None ->
  let u0 := default_url (r_url row) in
  let u' := if code =? 200 then u0 else spdx_url in
  memo_ok (done ++ [row]) (<[r_name row := u']> m)
    (pre ++ [EvHead u0 (inr code)]).
Proof.
  intros Hok Hm u0 u'. pose proof (memo_unseen _ _ _ _ Hok Hm) as Hun.
  destruct Hok as [Hseen Hval]. split.
  - intros row' Hin. apply in_app_or in Hin as [Hin|[<-|[]]].
    + destruct (decide (r_name row = r_name row')) as [Heq|Hne].
      * rewrite Heq, lookup_insert_eq. by eexists.
      * rewrite lookup_insert_ne by done. by apply Hseen.
    + rewrite lookup_insert_eq. by eexists.
  - intros n v Hn. destruct (decide (r_name row = n)) as [Heq|Hne].
    + subst n. rewrite lookup_insert_eq in Hn. injection Hn as <-.
      subst u'. destruct (code =? 200) eqn:Hc.
      * split; [apply default_url_nonempty|right]. exists row.
        split; [|split; [done|]].
        -- rewrite find_app_r by exact Hun. simpl.
           unfold name_is. by rewrite String.eqb_refl.
        -- apply Z.eqb_eq in Hc. subst code. apply in_or_app. right. by left.
      * split; [discriminate|by left].
    + rewrite lookup_insert_ne in Hn by done.
      destruct (Hval n v Hn) as [Hnv [Hs|(first & Hf & Hu & Hin)]].
      * split; [done|by left].
      * split; [done|right]. exists first.
        split; [by apply find_app_l|]. split; [done|].
        apply in_or_app. by left.
Qed.

(** An entry built from a memo value is as [entry_from_memo] wants it, also
    after more rows and more calls. *)
Lemma entry_of_memo (done todo : list DependencyRow) (m : gmap string string)
    (pre added : list event) (row : DependencyRow) (u : string) :
  memo_ok done m pre -> m !! r_name row = Some u ->
  entry_from_memo (done ++ todo) (pre ++ added) row (license_entry row u).
Proof.
  intros [_ Hval] Hm. destruct (Hval _ _ Hm) as [Hne [Hs|(first & Hf & Hu & Hin)]].
  - repeat split; [done|by left].
  - repeat split; [done|right]. exists first. simpl.
    split; [by apply find_app_l|]. split; [done|].
    apply in_or_app. by left.
Qed.

Lemma license_loop_entries (w : World) (base : list event)
    (todo : list DependencyRow) :
  forall done s pre s',
    log s = base ++ pre ->
    memo_ok done (valid_url s) pre ->
    for_each todo (process_row w "license") s = (Return tt, s') ->
    exists es added,
      log s' = base ++ pre ++ added
      /\ response_data s' = response_data s ++ es
      /\ Forall2 (entry_from_memo (done ++ todo) (pre ++ added)) todo es.
Proof.
  induction todo as [|row todo IH]; intros done s pre s' Hlog Hok Hrun.
  - injection Hrun as <-. exists [], []. rewrite !app_nil_r.
    repeat split; [done|constructor].
  - simpl in Hrun. unfold bind in Hrun.
    rewrite process_row_license, process_license_eq in Hrun.
    destruct (valid_url s !! r_name row) as [u|] eqn:Hm.
    + pose proof (memo_ok_hit _ _ _ _ _ Hok Hm) as Hok'.
      match type of Hrun with for_each _ _ ?s1 = _ =>
        destruct (IH (done ++ [row]) s1 pre s' Hlog Hok' Hrun)
          as (es & added & Hl & Hr & Hes)
      end.
      exists (license_entry row u :: es), added. simpl in Hr.
      split; [exact Hl|]. split; [by rewrite Hr, <- app_assoc|].
      rewrite <- app_assoc in Hes. simpl in Hes.
      constructor; [|exact Hes].
      replace (done ++ row :: todo) with ((done ++ [row]) ++ todo)
        by (by rewrite <- app_assoc).
      by eapply entry_of_memo.
    + simpl in Hrun.
      destruct (requests_head w (log s) _) as [msg|code]; [discriminate Hrun|].
      pose proof (memo_ok_miss _ _ _ _ code Hok Hm) as Hok'. simpl in Hok'.
      match type of Hrun with for_each _ _ ?s1 = _ =>
        destruct (IH (done ++ [row]) s1
                    (pre ++ [EvHead (default_url (r_url row)) (inr code)]) s')
          as (es & added & Hl & Hr & Hes)
      end; [simpl; by rewrite Hlog, <- app_assoc|exact Hok'|exact Hrun|].
      simpl in Hr. rewrite <- !app_assoc in Hl.
      rewrite <- (app_assoc done), <- (app_assoc pre) in Hes. simpl in Hes.
      eexists (license_entry row _ :: es),
              (EvHead (default_url (r_url row)) (inr code) :: added).
      split; [exact Hl|]. split; [by rewrite Hr, <- app_assoc|].
      constructor; [|exact Hes].
      replace (done ++ row :: todo) with ((done ++ [row]) ++ todo)
        by (by rewrite <- app_assoc).
      replace (pre ++ EvHead (default_url (r_url row)) (inr code) :: added)
        with ((pre ++ [EvHead (default_url (r_url row)) (inr code)]) ++ added)
        by (by rewrite <- app_assoc).
      eapply entry_of_memo; [exact Hok'|]. by rewrite lookup_insert_eq.
Qed.

Lemma entry_from_memo_mono (rows : list DependencyRow) (new new' : list event)
    (row : DependencyRow) (e : DepPkg) :
  (forall ev, In ev new -> In ev new') ->
  entry_from_memo rows new row e -> entry_from_memo rows new' row e.
Proof.
  intros Hsub (He & Hne & [Hs|(first & Hf & Hu & Hin)]).
  - repeat split; [done|done|by left].
  - repeat split; [done|done|right]. exists first. auto.
Qed.

Lemma entries_from_memo_mono (rows : list DependencyRow) (new new' : list event)
    (l : list DependencyRow) (es : list DepPkg) :
  (forall ev, In ev new -> In ev new') ->
  Forall2 (entry_from_memo rows new) l es ->
  Forall2 (entry_from_memo rows new') l es.
Proof.
  intros Hsub H. eapply Forall2_impl; [exact H|].
  intros row e. by apply entry_from_memo_mono.
Qed.

(** A pass of a license report that returns: its entries are those of the
    rows it fetched. *)
Lemma attempt_license_entries (w : World) (compid appid : option Z)
    (s : state) (dd : DepPkgs) (s' : state) :
  attempt_body w compid appid "license" s = (Return dd, s') ->
  exists rows new es,
    log s' = log s ++ new
    /\ In (EvFetchRows (inr rows)) new
    /\ data dd = response_data s ++ es
    /\ Forall2 (entry_from_memo rows new) rows es.
Proof.
  rewrite attempt_body_eq.
  destruct (engine_connect w (log s)) as [e|]; simpl; [discriminate|].
  destruct (cursor_execute w _ MainCursor _ _) as [e|]; simpl; [discriminate|].
  destruct (fetchall_rows w _) as [e|rows]; simpl; [discriminate|].
  match goal with |- context [for_each rows _ ?s3] =>
    pose proof (license_loop_entries w (log s) rows [] s3
                  [EvConnect None;
                   EvExecute MainCursor (fst (select_query compid appid))
                     [id_param (snd (select_query compid appid)); PStr "license"]
                     None;
                   EvFetchRows (inr rows)]) as Hloop;
    destruct (for_each rows (process_row w "license") s3) as [[[]|e|] s4]
  end; intros H; try discriminate H.
  injection H as <- <-.
  destruct (Hloop s4) as (es & added & Hl & Hr & Hes).
  { simpl. by rewrite <- !app_assoc. }
  { split; [intros row []|]. intros n u Hn.
    cbn [valid_url set_valid_url] in Hn. by rewrite lookup_empty in Hn. }
  { reflexivity. }
  simpl in Hr, Hes.
  match type of Hl with _ = _ ++ ?pre ++ _ =>
    exists rows, ((pre ++ added) ++ [EvRelease]), es
  end.
  split; [simpl log; by rewrite Hl, <- !app_assoc|].
  split; [simpl; tauto|]. split; [exact Hr|].
  eapply entries_from_memo_mono; [|exact Hes].
  intros ev Hev. apply in_or_app. by left.
Qed.

(** A pass of a license report that ends in a transient error has not
    touched [response_data]. *)
Lemma attempt_license_transient (w : World) (compid appid : option Z)
    (s : state) (e : exn) (s' : state) :
  attempt_body w compid appid "license" s = (Raise e, s') ->
  transient e = true ->
  response_data s' = response_data s.
Proof.
  rewrite attempt_body_eq.
  destruct (engine_connect w (log s)) as [e0|]; simpl.
  { by intros [= <- <-]. }
  destruct (cursor_execute w _ MainCursor _ _) as [e0|]; simpl.
  { by intros [= <- <-]. }
  destruct (fetchall_rows w _) as [e0|rows]; simpl.
  { by intros [= <- <-]. }
  match goal with |- context [for_each rows _ ?s3] =>
    pose proof (license_loop_raises w rows s3) as Hraise;
    destruct (for_each rows (process_row w "license") s3) as [[[]|e0|] s4]
  end; intros H Ht; try discriminate H.
  injection H as <- <-. rewrite (Hraise _ _ eq_refl) in Ht. discriminate Ht.
Qed.

Lemma retry_machine_license_entries (w : World) (compid appid : option Z)
    n s k r s' :
  retry_machine w compid appid "license" n s k r s' ->
  forall dd, r = Done dd ->
  exists rows new es,
    log s' = log s ++ new
    /\ In (EvFetchRows (inr rows)) new
    /\ data dd = response_data s ++ es
    /\ Forall2 (entry_from_memo rows new) rows es.
Proof.
  machine_induction; intros dd Hr;
    try discriminate Hr.
  - injection Hr as ->. exact (attempt_license_entries _ _ _ _ _ _ Hb).
  - destruct (IH dd Hr) as (rows & new & es & Hl & Hin & Hd & Hes).
    pose proof (attempt_license_transient _ _ _ _ _ _ Hb Ht) as Hkeep.
    pose proof (attempt_body_frame w compid appid "license" s) as [_ F].
    rewrite Hb in F. simpl in F. destruct F as (c & body & _ & Hl1 & _).
    simpl in Hl, Hd. rewrite Hl1 in Hl. rewrite Hkeep in Hd.
    exists rows,
      ((EvConnect c :: body)
       ++ [EvLogError (retry_message w e n db_conn_retry); EvSleep sleep_for_ms]
       ++ new), es.
    split; [by rewrite Hl, <- !app_assoc|].
    split; [apply in_or_app; right; apply in_or_app; by right|].
    split; [exact Hd|].
    eapply entries_from_memo_mono; [|exact Hes].
    intros ev Hev. apply in_or_app; right; apply in_or_app; by right.
Qed.

(** C1 (as amended): a license request that returns has fetched rows, and
    its data has one entry for each of them, in order.  Each entry repeats
    its row's fields, and its URL is not empty and is either the SPDX
    landing page or the (defaulted) URL of the first fetched row with the
    same license name, for which a HEAD call of this request returned 200.
    For a row that is the first with its name this is its own URL. *)
Theorem license_entry_urls_come_from_memo (w : World) (c : cookies)
    (compid appid : option Z) (s : state) (dd : DepPkgs) :
  fst (getCompPkgDeps w c compid appid "license" s) = Return dd ->
  exists rows new,
    log (snd (getCompPkgDeps w c compid appid "license" s)) = log s ++ new
    /\ In (EvFetchRows (inr rows)) new
    /\ Forall2 (entry_from_memo rows new) rows (data dd).
Proof.
  destruct (decide (requests_get w (log s) (validate_endpoint w) c
                    = inr (Some 200))) as [Hok|Hno].
  - rewrite (getCompPkgDeps_authorized _ _ _ _ _ _ Hok).
    destruct (query_phase_machine w compid appid "license"
                (emit (EvGet (validate_endpoint w) c (inr (Some 200))) s))
      as (k & r & s' & Hm & ->).
    destruct r as [dd0|e]; simpl.
    + intros [= ->].
      destruct (retry_machine_license_entries _ _ _ _ _ _ _ _ Hm dd eq_refl)
        as (rows & new & es & Hl & Hin & Hd & Hes).
      simpl in Hl, Hd. subst es.
      exists rows, (EvGet (validate_endpoint w) c (inr (Some 200)) :: new).
      split; [by rewrite Hl, <- app_assoc|]. split; [by right|].
      eapply entries_from_memo_mono; [|exact Hes]. intros ev Hev. by right.
    + destruct (is_http_exception e); discriminate.
  - rewrite (getCompPkgDeps_refused _ _ _ _ _ _ Hno). discriminate.
Qed.

Lemma license_entry_urls_come_from_memo_witness :
  exists rows new,
    log (snd (getCompPkgDeps world_up [] (Some 42) None "license" initial_state))
    = log initial_state ++ new
    /\ In (EvFetchRows (inr rows)) new
    /\ Forall2 (entry_from_memo rows new) rows
         [license_entry row_flask "https://example.org/bsd";
          license_entry row_jinja "https://example.org/bsd"].
Proof.
  apply (license_entry_urls_come_from_memo world_up [] (Some 42) None
           initial_state
           {| data := [license_entry row_flask "https://example.org/bsd";
                       license_entry row_jinja "https://example.org/bsd"] |}).
  vm_compute. reflexivity.
Defined.

(** C1 as stated fails: two rows share the license name, the second one has
    a URL of its own, and its entry carries the URL validated for the first
    row, which is neither its own nor the SPDX landing page. *)
Lemma license_urls_as_claimed_fails : ~ license_urls_as_claimed.
Proof.
  intros H.
  destruct (H world_up [] (Some 42) None initial_state
              {| data := [license_entry row_flask "https://example.org/bsd";
                          license_entry row_jinja "https://example.org/bsd"] |})
    as (rows & Hin & Hall); [vm_compute; reflexivity|].
  vm_compute in Hin.
  destruct Hin as [Hin|[Hin|[Hin|[Hin|[Hin|[Hin|[]]]]]]]; try discriminate Hin.
  injection Hin as <-.
  inversion Hall as [|r1 e1 l1 es1 _ Hrest]; subst.
  inversion Hrest as [|r2 e2 l2 es2 Hjinja _]; subst.
  destruct Hjinja as [Hown|Hspdx]; vm_compute in Hown || vm_compute in Hspdx;
    discriminate.
Qed.

(** ** Vulnerability reports *)

Lemma cve_loop_lookups (w : World) (d : string) (rows : list DependencyRow) :
  String.eqb d "license" = false ->
  forall s s',
    for_each rows (process_row w d) s = (Return tt, s') ->
    exists vss,
      length vss = length rows
      /\ log s' = log s ++ vuln_lookups rows vss
      /\ response_data s' = response_data s ++ vuln_entries rows vss.
Proof.
  intros Hd. induction rows as [|row rows IH]; intros s s' Hrun.
  - injection Hrun as <-. exists []. by rewrite !app_nil_r.
  - simpl in Hrun. unfold bind, process_row at 1 in Hrun.
    rewrite Hd, process_cve_eq in Hrun. simpl in Hrun.
    destruct (cursor_execute w (log s) VulnCursor _ _) as [e|]; [discriminate Hrun|].
    destruct (fetchall_vulns w _) as [e|vs]; [discriminate Hrun|].
    destruct (IH _ _ Hrun) as (vss & Hlen & Hl & Hr).
    exists (vs :: vss). simpl in Hl, Hr.
    split; [simpl; by rewrite Hlen|].
    unfold vuln_lookups, vuln_entries in *. simpl.
    split; [by rewrite Hl, <- !app_assoc|by rewrite Hr, <- !app_assoc].
Qed.

(** A pass that fails before its rows have come in leaves [response_data]
    as it was. *)
Lemma attempt_raise_data (w : World) (compid appid : option Z) (d : string)
    (s : state) (e : exn) (s1 : state) :
  attempt_body w compid appid d s = (Raise e, s1) ->
  exists new es,
    log s1 = log s ++ new
    /\ response_data s1 = response_data s ++ es
    /\ (no_rows_fetched new -> es = []).
Proof.
  rewrite attempt_body_eq.
  destruct (engine_connect w (log s)) as [e0|]; simpl.
  { intros [= <- <-]. eexists [_], []. simpl. by rewrite app_nil_r. }
  destruct (cursor_execute w _ MainCursor _ _) as [e0|]; simpl.
  { intros [= <- <-]. eexists [_; _; _], []. simpl.
    by rewrite app_nil_r, <- !app_assoc. }
  destruct (fetchall_rows w _) as [e0|rows]; simpl.
  { intros [= <- <-]. eexists [_; _; _; _], []. simpl.
    by rewrite app_nil_r, <- !app_assoc. }
  match goal with |- context [for_each rows _ ?s3] =>
    destruct (row_loop_frame w d rows s3) as [_ (new & es & Hl & Hr & _)];
    destruct (for_each rows (process_row w d) s3) as [[[]|e0|] s4]
  end; intros H; try discriminate H.
  injection H as <- <-. simpl in Hl, Hr.
  exists ([EvConnect None;
           EvExecute MainCursor (fst (select_query compid appid))
             [id_param (snd (select_query compid appid)); PStr "license"] None;
           EvFetchRows (inr rows)] ++ new ++ [EvRelease]), es.
  simpl. split; [by rewrite Hl, <- !app_assoc|]. split; [exact Hr|].
  intros Hno. destruct (Hno rows). simpl. tauto.
Qed.

Lemma attempt_cve_lookups (w : World) (compid appid : option Z) (d : string)
    (s : state) (dd : DepPkgs) (s' : state) :
  String.eqb d "license" = false ->
  attempt_body w compid appid d s = (Return dd, s') ->
  exists rows vss pre,
    length vss = length rows
    /\ log s' = log s ++ pre ++ EvFetchRows (inr rows)
                  :: vuln_lookups rows vss ++ [EvRelease]
    /\ data dd = response_data s ++ vuln_entries rows vss.
Proof.
  intros Hd. rewrite attempt_body_eq.
  destruct (engine_connect w (log s)) as [e|]; simpl; [discriminate|].
  destruct (cursor_execute w _ MainCursor _ _) as [e|]; simpl; [discriminate|].
  destruct (fetchall_rows w _) as [e|rows]; simpl; [discriminate|].
  match goal with |- context [for_each rows _ ?s3] =>
    pose proof (cve_loop_lookups w d rows Hd s3) as Hloop;
    destruct (for_each rows (process_row w d) s3) as [[[]|e|] s4]
  end; intros H; try discriminate H.
  injection H as <- <-.
  destruct (Hloop s4 eq_refl) as (vss & Hlen & Hl & Hr). simpl in Hl, Hr.
  exists rows, vss,
    [EvConnect None;
     EvExecute MainCursor (fst (select_query compid appid))
       [id_param (snd (select_query compid appid)); PStr "license"] None].
  split; [exact Hlen|]. simpl.
  split; [by rewrite Hl, <- !app_assoc|exact Hr].
Qed.

Lemma retry_machine_cve_lookups (w : World) (compid appid : option Z)
    (d : string) n s k r s' :
  String.eqb d "license" = false ->
  retry_machine w compid appid d n s k r s' ->
  forall dd, r = Done dd ->
  exists rows vss pre stale,
    length vss = length rows
    /\ log s' = log s ++ pre ++ EvFetchRows (inr rows)
                  :: vuln_lookups rows vss ++ [EvRelease]
    /\ (no_rows_fetched pre -> stale = [])
    /\ data dd = response_data s ++ stale ++ vuln_entries rows vss.
Proof.
  intros Hd.
  machine_induction; intros dd Hr;
    try discriminate Hr.
  - injection Hr as ->.
    destruct (attempt_cve_lookups _ _ _ _ _ _ _ Hd Hb)
      as (rows & vss & pre & Hlen & Hl & Hdata).
    exists rows, vss, pre, []. repeat split; done.
  - destruct (IH dd Hr) as (rows & vss & pre & stale & Hlen & Hl & Hst & Hdata).
    destruct (attempt_raise_data _ _ _ _ _ _ _ Hb) as (new1 & es & Hl1 & Hr1 & Hes).
    simpl in Hl, Hdata. rewrite Hl1 in Hl. rewrite Hr1 in Hdata.
    exists rows, vss,
      (new1
       ++ [EvLogError (retry_message w e n db_conn_retry); EvSleep sleep_for_ms]
       ++ pre), (es ++ stale).
    split; [exact Hlen|]. split; [by rewrite Hl, <- !app_assoc|].
    split; [|by rewrite Hdata, <- !app_assoc].
    intros Hno. rewrite Hes, Hst; [reflexivity| |].
    + intros rows' Hin. apply (Hno rows').
      apply in_or_app. right. apply in_or_app. by right.
    + intros rows' Hin. apply (Hno rows'). apply in_or_app. by left.
Qed.

(** C3: a vulnerability request that returns has, in its last pass, fetched
    the dependency rows and then made for every row, in order, exactly one
    lookup and one fetch: by (packagename, packageversion) when the row's
    purl is blank (absent, empty or white space only), and otherwise by the
    purl cut before its first [?].  The data ends with one entry for every
    vulnerability record these lookups returned, row after row, each with
    the record's id as name and the OSV base URL followed by that id as
    url.  Before them can only stand entries left by earlier passes of the
    retry loop ([stale]); there are none unless such a pass had already
    fetched its rows when it failed. *)
Theorem vulnerability_lookup_by_package_or_purl (w : World) (c : cookies)
    (compid appid : option Z) (s : state) (dd : DepPkgs) :
  fst (getCompPkgDeps w c compid appid "cve" s) = Return dd ->
  exists rows vss pre stale,
    length vss = length rows
    /\ log (snd (getCompPkgDeps w c compid appid "cve" s))
       = log s ++ pre ++ EvFetchRows (inr rows)
           :: vuln_lookups rows vss ++ [EvRelease]
    /\ data dd = stale ++ vuln_entries rows vss
    /\ (no_rows_fetched pre -> stale = [])
    /\ (forall row v,
          name (vuln_entry row v) = v_id v
          /\ url (vuln_entry row v) = "https://osv.dev/vulnerability/" +:+ v_id v).
Proof.
  destruct (decide (requests_get w (log s) (validate_endpoint w) c
                    = inr (Some 200))) as [Hok|Hno].
  - rewrite (getCompPkgDeps_authorized _ _ _ _ _ _ Hok).
    destruct (query_phase_machine w compid appid "cve"
                (emit (EvGet (validate_endpoint w) c (inr (Some 200))) s))
      as (k & r & s' & Hm & ->).
    destruct r as [dd0|e]; simpl.
    + intros [= ->].
      destruct (retry_machine_cve_lookups w compid appid "cve" _ _ _ _ _
                  eq_refl Hm dd eq_refl)
        as (rows & vss & pre & stale & Hlen & Hl & Hst & Hd).
      simpl in Hl, Hd.
      exists rows, vss,
        (EvGet (validate_endpoint w) c (inr (Some 200)) :: pre), stale.
      split; [exact Hlen|]. split; [by rewrite Hl, <- app_assoc|].
      split; [exact Hd|]. split; [|by intros row v].
      intros Hnone. apply Hst. intros rows' Hin. apply (Hnone rows'). by right.
    + destruct (is_http_exception e); discriminate.
  - rewrite (getCompPkgDeps_refused _ _ _ _ _ _ Hno). discriminate.
Qed.

Lemma vulnerability_lookup_by_package_or_purl_witness :
  exists rows vss pre stale,
    length vss = length rows
    /\ log (snd (getCompPkgDeps world_up [] (Some 42) None "cve" initial_state))
       = log initial_state ++ pre ++ EvFetchRows (inr rows)
           :: vuln_lookups rows vss ++ [EvRelease]
    /\ [vuln_entry row_flask vuln_one; vuln_entry row_jinja vuln_one]
       = stale ++ vuln_entries rows vss
    /\ (no_rows_fetched pre -> stale = [])
    /\ (forall row v,
          name (vuln_entry row v) = v_id v
          /\ url (vuln_entry row v) = "https://osv.dev/vulnerability/" +:+ v_id v).
Proof.
  apply (vulnerability_lookup_by_package_or_purl world_up [] (Some 42) None
           initial_state
           {| data := [vuln_entry row_flask vuln_one;
                       vuln_entry row_jinja vuln_one] |}).
  vm_compute. reflexivity.
Defined.

(** The transcript of that request: the first row, without purl, is looked
    up by package and version; the second by its purl without qualifiers. *)
Example vulnerability_request_transcript :
  log (snd (getCompPkgDeps world_up [] (Some 42) None "cve" initial_state))
  = [EvGet "http://validate/msapi/validateuser" [] (inr (Some 200));
     EvConnect None;
     EvExecute MainCursor comp_sql [PInt 42; PStr "license"] None;
     EvFetchRows (inr [row_flask; row_jinja]);
     EvExecute VulnCursor vuln_sql_by_package [PStr "flask"; PStr "1.2.2"] None;
     EvFetchVulns (inr [vuln_one]);
     EvExecute VulnCursor vuln_sql_by_purl [PStr "pkg:pypi/jinja2@3.0"] None;
     EvFetchVulns (inr [vuln_one]);
     EvRelease].
Proof. vm_compute. reflexivity. Qed.

(** ** The loop budget of the model *)

(** Any budget that covers the attempts left gives the same run. *)
Lemma query_loop_fuel (w : World) (compid appid : option Z) (d : string)
    (fuel1 : nat) :
  forall (fuel2 : nat) (n : Z) (s : state),
    1 <= n <= db_conn_retry ->
    (Z.to_nat (db_conn_retry - n) < fuel1)%nat ->
    (Z.to_nat (db_conn_retry - n) < fuel2)%nat ->
    query_loop w fuel1 compid appid d db_conn_retry n s
    = query_loop w fuel2 compid appid d db_conn_retry n s.
Proof.
  induction fuel1 as [|fuel1 IH]; intros fuel2 n s Hn H1 H2; [lia|].
  destruct fuel2 as [|fuel2]; [lia|].
  simpl. unfold try_except.
  destruct (attempt_body w compid appid d s) as [[dd|e|] s1]; try reflexivity.
  destruct (transient e); [|reflexivity].
  destruct (n <? db_conn_retry) eqn:Hlt; [|reflexivity].
  apply Z.ltb_lt in Hlt. unfold bind, do_event. apply IH; lia.
Qed.

(** The handler always ends: three passes are enough. *)
Lemma getCompPkgDeps_ends (w : World) (c : cookies) (compid appid : option Z)
    (d : string) (s : state) :
  fst (getCompPkgDeps w c compid appid d s) <> Diverge.
Proof.
  destruct (decide (requests_get w (log s) (validate_endpoint w) c
                    = inr (Some 200))) as [Hok|Hno].
  - rewrite (getCompPkgDeps_authorized _ _ _ _ _ _ Hok).
    destruct (query_phase_machine w compid appid d
                (emit (EvGet (validate_endpoint w) c (inr (Some 200))) s))
      as (k & r & s' & _ & ->).
    destruct r as [dd|e]; simpl; [discriminate|].
    destruct (is_http_exception e); discriminate.
  - rewrite (getCompPkgDeps_refused _ _ _ _ _ _ Hno). discriminate.
Qed.

(** ** The scenarios of the specification *)

(** Two transient failures, then a success: 200, after two sleeps. *)
Example third_attempt_succeeds :
  let run := getCompPkgDeps (world_flaky 2) [] (Some 42) None "license" initial_state in
  respond (fst run)
  = Return {| resp_status := 200;
              resp_body :=
                BodyData {| data := [license_entry row_flask "https://example.org/bsd";
                                     license_entry row_jinja "https://example.org/bsd"] |} |}
  /\ sleeps (log (snd run)) = [200; 200]
  /\ connects (log (snd run)) = 3%nat.
Proof. vm_compute. repeat split; reflexivity. Qed.

(** Three transient failures: 500 with the text of the last one. *)
Example three_failures_give_500 :
  let run := getCompPkgDeps (world_flaky 3) [] (Some 42) None "license" initial_state in
  respond (fst run)
  = Return {| resp_status := 500; resp_body := BodyDetail "connection refused" |}
  /\ sleeps (log (snd run)) = [200; 200]
  /\ connects (log (snd run)) = 3%nat.
Proof. vm_compute. repeat split; reflexivity. Qed.

(** Two rows with one license name: one HEAD call, for the first of them. *)
Example two_rows_one_head_call :
  heads (log (snd (getCompPkgDeps world_up [] (Some 42) None "license"
                     initial_state)))
  = ["https://example.org/bsd"].
Proof. vm_compute. reflexivity. Qed.

Example end_to_end_license_scenario :
  fst (deppkg_route world_scenario []
         {| q_compid := Some 42; q_appid := None; q_deptype := Some "license" |}
         initial_state)
  = Return {| resp_status := 200;
              resp_body :=
                BodyData {| data := [{| packagename := "flask";
                                        packageversion := "1.2.2";
                                        name := "BSD-3-Clause";
                                        url := "https://spdx.org/licenses/";
                                        summary := "";
                                        fullcompname := "";
                                        risklevel := None |}] |} |}.
Proof. vm_compute. reflexivity. Qed.

(** The health probe of a store that is up. *)
Example health_of_a_store_that_is_up :
  fst (health world_up initial_state) = Return (200, msg_up).
Proof. vm_compute. reflexivity. Qed.

(** ** Connections, the validation call and the ways to end *)

Lemma releases_app (a b : list event) :
  releases (a ++ b) = (releases a + releases b)%nat.
Proof.
  induction a as [|e a IH]; [reflexivity|].
  destruct e; simpl; by rewrite IH.
Qed.

Lemma connects_ok_app (a b : list event) :
  connects_ok (a ++ b) = (connects_ok a + connects_ok b)%nat.
Proof.
  induction a as [|e a IH]; [reflexivity|].
  destruct e as [| [?|] | | | | | | | | |]; simpl; by rewrite IH.
Qed.

Lemma row_events_hold_no_connection (l : list event) :
  Forall row_event l -> releases l = O /\ connects_ok l = O.
Proof.
  induction 1 as [|e l He _ [IH1 IH2]]; [done|].
  destruct e as [| | |[]| | | | | | |]; simpl in *; done.
Qed.

(** One pass hands back the connection it was given, and none if it was
    given none. *)
Lemma attempt_body_balanced (w : World) (compid appid : option Z) (d : string)
    (s : state) :
  exists new,
    log (snd (attempt_body w compid appid d s)) = log s ++ new
    /\ releases new = connects_ok new.
Proof.
  rewrite attempt_body_eq.
  destruct (engine_connect w (log s)) as [e|]; simpl.
  { by eexists [_]. }
  destruct (cursor_execute w _ MainCursor _ _) as [e|]; simpl.
  { eexists [_; _; _]. by rewrite <- !app_assoc. }
  destruct (fetchall_rows w _) as [e|rows]; simpl.
  { eexists [_; _; _; _]. by rewrite <- !app_assoc. }
  match goal with |- context [for_each rows _ ?s3] =>
    destruct (row_loop_frame w d rows s3) as [_ (new & es & Hl & _ & Hf)];
    destruct (for_each rows (process_row w d) s3) as [[[]|e|] s4]
  end; simpl in *.
  all: apply row_events_hold_no_connection in Hf as [Hr Hc].
  all: eexists ([EvConnect None; _; _] ++ new ++ [EvRelease]).
  all: split; [rewrite Hl, <- !app_assoc; reflexivity|].
  all: simpl; rewrite releases_app, connects_ok_app, Hr, Hc; reflexivity.
Qed.

(** X5: in every request the handler hands back to the pool exactly the
    connections it was given, whichever way the request ends. *)
Theorem every_connection_is_released (w : World) (c : cookies)
    (compid appid : option Z) (d : string) (s : state) :
  exists new,
    log (snd (getCompPkgDeps w c compid appid d s)) = log s ++ new
    /\ releases new = connects_ok new.
Proof.
  apply (getCompPkgDeps_transcript
           (fun l => releases l = connects_ok l) w c compid appid d).
  - intros a b Ha Hb. by rewrite releases_app, connects_ok_app, Ha, Hb.
  - apply attempt_body_balanced.
  - reflexivity.
  - reflexivity.
  - reflexivity.
Qed.

Lemma pass_events_not_get (compid appid : option Z) (l : list event) :
  Forall (pass_event compid appid) l -> Forall (fun e => is_get e = false) l.
Proof.
  intros H. eapply Forall_impl; [exact H|].
  intros e He. by destruct e.
Qed.

(** X4: the validation service is called exactly once in a request: the
    call comes first, goes to [validateuser_url + "/msapi/validateuser"]
    with the cookies of the request, and is never repeated, whatever the
    retry loop does afterwards. *)
Theorem validation_is_called_once (w : World) (c : cookies)
    (compid appid : option Z) (d : string) (s : state) :
  exists rest,
    log (snd (getCompPkgDeps w c compid appid d s))
    = log s ++ EvGet (validateuser_url w +:+ "/msapi/validateuser") c
                 (requests_get w (log s)
                    (validateuser_url w +:+ "/msapi/validateuser") c)
               :: rest
    /\ Forall (fun e => is_get e = false) rest.
Proof.
  fold (validate_endpoint w).
  destruct (decide (requests_get w (log s) (validate_endpoint w) c
                    = inr (Some 200))) as [Hok|Hno].
  - rewrite (getCompPkgDeps_authorized _ _ _ _ _ _ Hok), Hok.
    destruct (query_phase_transcript
                (Forall (fun e => is_get e = false)) w compid appid d)
      with (s := emit (EvGet (validate_endpoint w) c (inr (Some 200))) s)
      as (new & Hl & Hnew).
    + intros a b Ha Hb. by apply Forall_app.
    + intros s0.
      destruct (attempt_body_frame w compid appid d s0)
        as [_ (c0 & body & _ & Hl & Hf & _)].
      exists (EvConnect c0 :: body). split; [exact Hl|].
      constructor; [done|]. by eapply pass_events_not_get.
    + intros m. by repeat constructor.
    + intros m. by repeat constructor.
    + exists new. split; [|exact Hnew]. simpl in Hl.
      by rewrite Hl, <- app_assoc.
  - rewrite (getCompPkgDeps_refused _ _ _ _ _ _ Hno). simpl.
    exists []. split; [reflexivity|constructor].
Qed.

(** X3: the handler ends in one of two ways only: it returns its data, or
    it raises an [HTTPException]; no other exception leaves it, and it does
    not run on for ever.  So the route always answers with the data or with
    a detail message. *)
Theorem handler_raises_only_http_exceptions (w : World) (c : cookies)
    (compid appid : option Z) (d : string) (s : state) :
  (exists dd,
      fst (getCompPkgDeps w c compid appid d s) = Return dd
      /\ respond (fst (getCompPkgDeps w c compid appid d s))
         = Return {| resp_status := 200; resp_body := BodyData dd |})
  \/ (exists code detail,
        fst (getCompPkgDeps w c compid appid d s)
        = Raise (HTTPException code detail)
        /\ respond (fst (getCompPkgDeps w c compid appid d s))
           = Return {| resp_status := code; resp_body := BodyDetail detail |}).
Proof.
  destruct (decide (requests_get w (log s) (validate_endpoint w) c
                    = inr (Some 200))) as [Hok|Hno].
  - rewrite (getCompPkgDeps_authorized _ _ _ _ _ _ Hok).
    destruct (query_phase_machine w compid appid d
                (emit (EvGet (validate_endpoint w) c (inr (Some 200))) s))
      as (k & r & s' & _ & ->).
    destruct r as [dd|[m|m|code m|m]]; simpl.
    + left. by exists dd.
    + right. by eexists _, _.
    + right. by eexists _, _.
    + right. by eexists _, _.
    + right. by eexists _, _.
  - rewrite (getCompPkgDeps_refused _ _ _ _ _ _ Hno). simpl.
    right. by eexists _, _.
Qed.

(** X13: the health probe makes a single attempt: it asks for one
    connection, never sleeps or retries, hands the connection back if it
    got one, and leaves [response_data] and the memo alone. *)
Theorem health_makes_one_attempt (w : World) (s : state) :
  exists new,
    log (snd (health w s)) = log s ++ new
    /\ connects new = 1%nat
    /\ sleeps new = []
    /\ releases new = connects_ok new
    /\ response_data (snd (health w s)) = response_data s
    /\ valid_url (snd (health w s)) = valid_url s.
Proof.
  unfold health, try_except, with_connection, finally, bind,
    do_connect, do_execute, do_rowcount, do_event, ret.
  simpl.
  destruct (engine_connect w (log s)) as [e|]; simpl.
  { eexists [_; _]. rewrite <- !app_assoc. by repeat split. }
  destruct (cursor_execute w (log s ++ [EvConnect None]) MainCursor "SELECT 1" [])
    as [e|]; simpl.
  { eexists [_; _; _; _]. rewrite <- !app_assoc. by repeat split. }
  destruct (0 <? cursor_rowcount w _); simpl.
  all: eexists [_; _; _; _]; rewrite <- !app_assoc; by repeat split.
Qed.

(** ** What each kind of report never calls *)

Lemma license_loop_only_heads (w : World) (rows : list DependencyRow) :
  forall s, exists new,
    log (snd (for_each rows (process_row w "license") s)) = log s ++ new
    /\ Forall (fun e => is_head e = true) new.
Proof.
  induction rows as [|row rows IH]; intros s.
  - exists []. simpl. by rewrite app_nil_r.
  - simpl. unfold bind. rewrite process_row_license, process_license_eq.
    destruct (valid_url s !! r_name row) as [u|].
    + destruct (IH (set_response_data
                      (response_data s ++ [license_entry row u]) s))
        as (new & Hl & Hf).
      by exists new.
    + simpl. destruct (requests_head w (log s) _) as [m|code].
      * eexists [_]. split; [reflexivity|]. by repeat constructor.
      * match goal with |- context [for_each rows _ ?s1] =>
          destruct (IH s1) as (new & Hl & Hf)
        end.
        simpl in Hl.
        exists (EvHead (default_url (r_url row)) (inr code) :: new).
        split; [by rewrite Hl, <- app_assoc|]. by constructor.
Qed.

Lemma other_loop_only_lookups (w : World) (d : string)
    (rows : list DependencyRow) :
  String.eqb d "license" = false ->
  forall s, exists new,
    log (snd (for_each rows (process_row w d) s)) = log s ++ new
    /\ Forall (fun e => is_vuln_call e = true) new.
Proof.
  intros Hd. induction rows as [|row rows IH]; intros s.
  - exists []. simpl. by rewrite app_nil_r.
  - simpl. unfold bind, process_row at 1. rewrite Hd, process_cve_eq. simpl.
    destruct (cursor_execute w (log s) VulnCursor _ _) as [e|].
    { eexists [_]. split; [reflexivity|]. by repeat constructor. }
    destruct (fetchall_vulns w _) as [e|vs].
    { eexists [_; _]. simpl. rewrite <- app_assoc.
      split; [reflexivity|]. by repeat constructor. }
    match goal with |- context [for_each rows _ ?s1] =>
      destruct (IH s1) as (new & Hl & Hf)
    end.
    simpl in Hl.
    eexists (_ :: _ :: new).
    split; [rewrite Hl, <- !app_assoc; reflexivity|].
    by repeat (constructor; [done|]).
Qed.

(** A pass whose row loop makes only calls of one class [keep] makes, apart
    from them, only calls on the connection and the dependency cursor. *)
Lemma attempt_body_classes (w : World) (compid appid : option Z) (d : string)
    (keep avoid : event -> bool) :
  (forall e, keep e = true -> avoid e = false) ->
  (forall c', avoid (EvConnect c') = false) ->
  (forall sql params r, avoid (EvExecute MainCursor sql params r) = false) ->
  (forall r, avoid (EvFetchRows r) = false) ->
  avoid EvRelease = false ->
  (forall rows s, exists new,
      log (snd (for_each rows (process_row w d) s)) = log s ++ new
      /\ Forall (fun e => keep e = true) new) ->
  forall s, exists new,
    log (snd (attempt_body w compid appid d s)) = log s ++ new
    /\ Forall (fun e => avoid e = false) new.
Proof.
  intros Hka Hc He Hf Hr Hloop s. rewrite attempt_body_eq.
  destruct (engine_connect w (log s)) as [e|]; simpl.
  { eexists [_]. split; [reflexivity|]. by repeat constructor. }
  destruct (cursor_execute w _ MainCursor _ _) as [e|]; simpl.
  { eexists [_; _; _]. rewrite <- !app_assoc. split; [reflexivity|].
    by repeat constructor. }
  destruct (fetchall_rows w _) as [e|rows]; simpl.
  { eexists [_; _; _; _]. rewrite <- !app_assoc. split; [reflexivity|].
    by repeat constructor. }
  match goal with |- context [for_each rows _ ?s3] =>
    destruct (Hloop rows s3) as (new & Hl & Hnew);
    destruct (for_each rows (process_row w d) s3) as [[[]|e|] s4]
  end; simpl in *.
  all: eexists ([EvConnect None; _; _] ++ new ++ [EvRelease]).
  all: split; [rewrite Hl, <- !app_assoc; reflexivity|].
  all: repeat (constructor; [done|]).
  all: apply Forall_app; split; [|by repeat constructor].
  all: eapply Forall_impl; [exact Hnew|]; intros ev; apply Hka.
Qed.

(** X6: a license report never touches the vulnerability table: no
    statement is executed and nothing is fetched on the vulnerability
    cursor during the request. *)
Theorem license_report_makes_no_vulnerability_lookup (w : World) (c : cookies)
    (compid appid : option Z) (s : state) :
  exists new,
    log (snd (getCompPkgDeps w c compid appid "license" s)) = log s ++ new
    /\ Forall (fun e => is_vuln_call e = false) new.
Proof.
  apply (getCompPkgDeps_transcript
           (Forall (fun e => is_vuln_call e = false)) w c compid appid "license").
  - intros a b Ha Hb. by apply Forall_app.
  - apply (attempt_body_classes w compid appid "license" is_head is_vuln_call);
      try done.
    + intros e He. by destruct e.
    + intros rows s0. apply license_loop_only_heads.
  - intros m. by repeat constructor.
  - intros m. by repeat constructor.
  - intros r. by repeat constructor.
Qed.

(** X7: a request for any report other than the license one never calls
    the license registry: no HEAD call is made during the request. *)
Theorem other_reports_make_no_head_call (w : World) (c : cookies)
    (compid appid : option Z) (d : string) (s : state) :
  d <> "license" ->
  exists new,
    log (snd (getCompPkgDeps w c compid appid d s)) = log s ++ new
    /\ heads new = [].
Proof.
  intros Hd. apply String.eqb_neq in Hd.
  destruct (getCompPkgDeps_transcript
              (Forall (fun e => is_head e = false)) w c compid appid d)
    with (s := s) as (new & Hl & Hnew).
  - intros a b Ha Hb. by apply Forall_app.
  - apply (attempt_body_classes w compid appid d is_vuln_call is_head);
      try done.
    + intros e He. by destruct e as [| | |[]| | | | | | |].
    + intros rows s0. by apply other_loop_only_lookups.
  - intros m. by repeat constructor.
  - intros m. by repeat constructor.
  - intros r. by repeat constructor.
  - exists new. split; [exact Hl|].
    clear Hl. induction Hnew as [|e l He _ IH]; [reflexivity|].
    destruct e; simpl in *; done.
Qed.

Lemma other_reports_make_no_head_call_witness :
  exists new,
    log (snd (getCompPkgDeps world_up [] (Some 42) None "cve" initial_state))
    = log initial_state ++ new
    /\ heads new = [].
Proof.
  apply (other_reports_make_no_head_call world_up [] (Some 42) None "cve"
           initial_state).
  discriminate.
Defined.

(** ** Blank strings and lookup keys *)

Lemma whitespace_only_false (s : string) :
  whitespace_only s = false
  <-> exists ch, In ch (list_ascii_of_string s) /\ PyStr.isspace ch = false.
Proof.
  unfold whitespace_only. induction s as [|a s IH]; simpl.
  - split; [discriminate|]. by intros (ch & [] & _).
  - destruct (PyStr.isspace a) eqn:Ha; simpl.
    + rewrite IH. split.
      * intros (ch & Hin & Hch). exists ch. auto.
      * intros (ch & [<-|Hin] & Hch); [congruence|]. by exists ch.
    + split; [|done]. intros _. exists a. auto.
Qed.

(** X1: [isBlank] is false exactly of the strings that hold at least one
    character that is not white space; it is true of [None], of the empty
    string and of every string of white space, however long. *)
Theorem isBlank_false_iff_visible_character (p : option string) :
  isBlank p = false
  <-> exists s ch,
        p = Some s
        /\ In ch (list_ascii_of_string s)
        /\ PyStr.isspace ch = false.
Proof.
  rewrite isBlank_spec. destruct p as [s|].
  - rewrite whitespace_only_false. split.
    + intros (ch & Hin & Hch). by exists s, ch.
    + intros (s' & ch & [= <-] & Hin & Hch). by exists ch.
  - split; [discriminate|]. by intros (s & ch & H & _).
Qed.

Lemma before_splits (sep : ascii) (s : string) :
  exists rest,
    s = before sep s +:+ rest
    /\ PyStr.contains sep (before sep s) = false
    /\ (rest = "" \/ exists rest', rest = String sep rest').
Proof.
  induction s as [|a s (rest & Hs & Hc & Hr)]; simpl.
  - exists "". auto.
  - destruct (Ascii.eqb a sep) eqn:Ha.
    + apply Ascii.eqb_eq in Ha. subst a. exists (String sep s). simpl.
      split; [done|]. split; [done|]. right. by exists s.
    + exists rest. simpl. rewrite (Ascii.eqb_sym sep a), Ha.
      split; [|by split].
      change (String a s = String a (before sep s +:+ rest)). by f_equal.
Qed.

(** X2: for a row whose purl is not blank the vulnerability lookup never
    fails to build its key: the statement is the one by purl, and its
    single parameter is the purl up to, and without, its first [?]; so the
    key holds no [?], and a purl without [?] is the key as it is. *)
Theorem purl_key_is_the_part_before_the_question_mark (row : DependencyRow)
    (p : string) (s : state) :
  r_purl row = Some p ->
  isBlank (Some p) = false ->
  exists key rest,
    vuln_query row s = (Return (vuln_sql_by_purl, [PStr key]), s)
    /\ p = key +:+ rest
    /\ PyStr.contains "?" key = false
    /\ (rest = "" \/ exists rest', rest = String "?" rest').
Proof.
  intros Hp Hb. rewrite isBlank_spec in Hb.
  destruct (before_splits "?" p) as (rest & Hs & Hc & Hr).
  exists (before "?" p), rest.
  rewrite vuln_query_eq. unfold vuln_lookup. rewrite Hp, Hb.
  by repeat split.
Qed.

Lemma purl_key_is_the_part_before_the_question_mark_witness :
  exists key rest,
    vuln_query row_jinja initial_state
    = (Return (vuln_sql_by_purl, [PStr key]), initial_state)
    /\ "pkg:pypi/jinja2@3.0?os=linux" = key +:+ rest
    /\ PyStr.contains "?" key = false
    /\ (rest = "" \/ exists rest', rest = String "?" rest').
Proof.
  apply (purl_key_is_the_part_before_the_question_mark row_jinja
           "pkg:pypi/jinja2@3.0?os=linux" initial_state); reflexivity.
Defined.

(** ** License reports: the last pass *)

(** A license report that ends well ends with a pass that started from an
    empty [response_data]. *)
Lemma retry_machine_license_last_pass (w : World) (compid appid : option Z)
    n s k r s' :
  retry_machine w compid appid "license" n s k r s' ->
  forall dd, r = Done dd ->
  exists s0 pre,
    attempt_body w compid appid "license" s0 = (Return dd, s')
    /\ response_data s0 = response_data s
    /\ log s0 = log s ++ pre.
Proof.
  machine_induction; intros dd Hr; try discriminate Hr.
  - injection Hr as ->. exists s, []. by rewrite app_nil_r.
  - destruct (IH dd Hr) as (s0 & pre & Hpass & Hrd & Hl).
    pose proof (attempt_license_transient _ _ _ _ _ _ Hb Ht) as Hkeep.
    pose proof (attempt_body_frame w compid appid "license" s) as [_ F].
    rewrite Hb in F. simpl in F. destruct F as (c & body & _ & Hl1 & _).
    simpl in Hrd, Hl. rewrite Hl1 in Hl.
    eexists s0, _. split; [exact Hpass|]. split; [by rewrite Hrd|].
    rewrite Hl, <- !app_assoc. reflexivity.
Qed.

Lemma license_request_last_pass (w : World) (c : cookies)
    (compid appid : option Z) (s : state) (dd : DepPkgs) :
  fst (getCompPkgDeps w c compid appid "license" s) = Return dd ->
  exists s0 pre,
    attempt_body w compid appid "license" s0
    = (Return dd, snd (getCompPkgDeps w c compid appid "license" s))
    /\ response_data s0 = []
    /\ log s0 = log s ++ pre.
Proof.
  destruct (decide (requests_get w (log s) (validate_endpoint w) c
                    = inr (Some 200))) as [Hok|Hno].
  - rewrite (getCompPkgDeps_authorized _ _ _ _ _ _ Hok).
    destruct (query_phase_machine w compid appid "license"
                (emit (EvGet (validate_endpoint w) c (inr (Some 200))) s))
      as (k & r & s' & Hm & ->).
    destruct r as [dd0|e]; simpl.
    + intros [= ->].
      destruct (retry_machine_license_last_pass _ _ _ _ _ _ _ _ Hm dd eq_refl)
        as (s0 & pre & Hpass & Hrd & Hl).
      simpl in Hrd, Hl. eexists s0, _. split; [exact Hpass|].
      split; [exact Hrd|]. rewrite Hl, <- app_assoc. reflexivity.
    + destruct (is_http_exception e); discriminate.
  - rewrite (getCompPkgDeps_refused _ _ _ _ _ _ Hno). discriminate.
Qed.

(** The memo only grows during the row loop, and every entry appended
    carries the URL the memo holds for its license name. *)
Lemma license_loop_memo (w : World) (rows : list DependencyRow) :
  forall s s',
    for_each rows (process_row w "license") s = (Return tt, s') ->
    valid_url s ⊆ valid_url s'
    /\ exists es,
         response_data s' = response_data s ++ es
         /\ Forall (fun e => valid_url s' !! name e = Some (url e)) es.
Proof.
  induction rows as [|row rows IH]; intros s s' Hrun.
  - injection Hrun as <-. split; [done|]. exists []. by rewrite app_nil_r.
  - simpl in Hrun. unfold bind in Hrun.
    rewrite process_row_license, process_license_eq in Hrun.
    destruct (valid_url s !! r_name row) as [u|] eqn:Hm.
    + destruct (IH _ _ Hrun) as (Hsub & es & Hr & Hes). simpl in Hsub, Hr.
      split; [exact Hsub|]. exists (license_entry row u :: es).
      split; [by rewrite Hr, <- app_assoc|].
      constructor; [|exact Hes]. simpl.
      by eapply lookup_weaken.
    + simpl in Hrun.
      destruct (requests_head w (log s) _) as [msg|code]; [discriminate Hrun|].
      destruct (IH _ _ Hrun) as (Hsub & es & Hr & Hes). simpl in Hsub, Hr.
      split.
      * etrans; [|exact Hsub]. by apply insert_subseteq.
      * eexists (license_entry row _ :: es).
        split; [by rewrite Hr, <- app_assoc|].
        constructor; [|exact Hes]. simpl.
        eapply lookup_weaken; [|exact Hsub]. by rewrite lookup_insert_eq.
Qed.

Lemma attempt_license_memo (w : World) (compid appid : option Z)
    (s : state) (dd : DepPkgs) (s' : state) :
  attempt_body w compid appid "license" s = (Return dd, s') ->
  exists es,
    data dd = response_data s ++ es
    /\ Forall (fun e => valid_url s' !! name e = Some (url e)) es.
Proof.
  rewrite attempt_body_eq.
  destruct (engine_connect w (log s)) as [e|]; simpl; [discriminate|].
  destruct (cursor_execute w _ MainCursor _ _) as [e|]; simpl; [discriminate|].
  destruct (fetchall_rows w _) as [e|rows]; simpl; [discriminate|].
  match goal with |- context [for_each rows _ ?s3] =>
    pose proof (license_loop_memo w rows s3) as Hloop;
    destruct (for_each rows (process_row w "license") s3) as [[[]|e|] s4]
  end; intros H; try discriminate H.
  injection H as <- <-.
  destruct (Hloop s4 eq_refl) as (_ & es & Hr & Hes). simpl in Hr.
  by exists es.
Qed.

(** X8: in the answer to a license request, entries with the same license
    name carry the same URL, whatever URLs their rows came with: the URL
    settled for a name when it is first met is the one all later rows of
    that name get. *)
Theorem same_license_name_same_url (w : World) (c : cookies)
    (compid appid : option Z) (s : state) (dd : DepPkgs) :
  fst (getCompPkgDeps w c compid appid "license" s) = Return dd ->
  forall e1 e2,
    In e1 (data dd) -> In e2 (data dd) ->
    name e1 = name e2 -> url e1 = url e2.
Proof.
  intros Hrun e1 e2 H1 H2 Hname.
  destruct (license_request_last_pass _ _ _ _ _ _ Hrun)
    as (s0 & pre & Hpass & Hrd & _).
  destruct (attempt_license_memo _ _ _ _ _ _ Hpass) as (es & Hd & Hes).
  rewrite Hrd in Hd. simpl in Hd. subst es.
  rewrite Forall_forall in Hes.
  apply list_elem_of_In in H1, H2.
  pose proof (Hes _ H1) as M1. pose proof (Hes _ H2) as M2.
  rewrite Hname in M1. congruence.
Qed.

Lemma same_license_name_same_url_witness :
  fst (getCompPkgDeps world_up [] (Some 42) None "license" initial_state)
  = Return {| data := [license_entry row_flask "https://example.org/bsd";
                       license_entry row_jinja "https://example.org/bsd"] |}
  /\ url (license_entry row_flask "https://example.org/bsd")
     = url (license_entry row_jinja "https://example.org/bsd").
Proof.
  split; [vm_compute; reflexivity|].
  apply (same_license_name_same_url world_up [] (Some 42) None initial_state
           {| data := [license_entry row_flask "https://example.org/bsd";
                       license_entry row_jinja "https://example.org/bsd"] |}).
  - vm_compute. reflexivity.
  - simpl. tauto.
  - simpl. tauto.
  - reflexivity.
Defined.

(** X9: when no HEAD call of a license request is answered with status
    200, every entry of the answer carries the SPDX landing page as its
    URL, whatever URL its row came with. *)
Theorem without_a_200_every_url_is_the_fallback (w : World) (c : cookies)
    (compid appid : option Z) (s : state) (dd : DepPkgs) :
  fst (getCompPkgDeps w c compid appid "license" s) = Return dd ->
  (forall u,
      ~ In (EvHead u (inr 200))
          (log (snd (getCompPkgDeps w c compid appid "license" s)))) ->
  Forall (fun e => url e = "https://spdx.org/licenses/") (data dd).
Proof.
  intros Hrun Hno.
  destruct (license_request_last_pass _ _ _ _ _ _ Hrun)
    as (s0 & pre & Hpass & Hrd & _).
  destruct (attempt_license_entries _ _ _ _ _ _ Hpass)
    as (rows & new & es & Hl & _ & Hd & Hes).
  rewrite Hrd in Hd. simpl in Hd. subst es.
  clear Hpass. induction Hes as [|row e rows' es' He _ IH]; [constructor|].
  constructor; [|exact IH].
  destruct He as (_ & _ & [Hs|(first & _ & _ & Hin)]); [exact Hs|].
  destruct (Hno (url e)). rewrite Hl. apply in_or_app. by right.
Qed.

Lemma without_a_200_every_url_is_the_fallback_witness :
  Forall (fun e => url e = "https://spdx.org/licenses/")
    [license_entry row_flask "https://spdx.org/licenses/";
     license_entry row_jinja "https://spdx.org/licenses/"].
Proof.
  apply (without_a_200_every_url_is_the_fallback world_registry_404 []
           (Some 42) None initial_state
           {| data := [license_entry row_flask "https://spdx.org/licenses/";
                       license_entry row_jinja "https://spdx.org/licenses/"] |}).
  - vm_compute. reflexivity.
  - intros u Hin. vm_compute in Hin.
    destruct Hin as [Hin|[Hin|[Hin|[Hin|[Hin|[Hin|[]]]]]]]; discriminate Hin.
Defined.

(** ** License reports: a registry that cannot be reached *)

Lemma license_loop_head_failure (w : World) (rows : list DependencyRow) :
  forall s, exists new,
    log (snd (for_each rows (process_row w "license") s)) = log s ++ new
    /\ forall u m,
         In (EvHead u (inl m)) new ->
         fst (for_each rows (process_row w "license") s)
         = Raise (OtherException m)
         /\ exists pre, new = pre ++ [EvHead u (inl m)].
Proof.
  induction rows as [|row rows IH]; intros s.
  - exists []. simpl. rewrite app_nil_r. split; [done|]. by intros u m [].
  - simpl. unfold bind. rewrite process_row_license, process_license_eq.
    destruct (valid_url s !! r_name row) as [u0|].
    + destruct (IH (set_response_data
                      (response_data s ++ [license_entry row u0]) s))
        as (new & Hl & Hnew).
      by exists new.
    + simpl. destruct (requests_head w (log s) _) as [msg|code].
      * eexists [_]. split; [reflexivity|].
        intros u m [[= <- <-]|[]]. split; [done|]. by exists [].
      * match goal with |- context [for_each rows _ ?s1] =>
          destruct (IH s1) as (new & Hl & Hnew)
        end.
        simpl in Hl.
        exists (EvHead (default_url (r_url row)) (inr code) :: new).
        split; [by rewrite Hl, <- app_assoc|].
        intros u m [Hin|Hin]; [discriminate Hin|].
        destruct (Hnew u m Hin) as [Hr (pre & ->)]. split; [exact Hr|].
        by exists (EvHead (default_url (r_url row)) (inr code) :: pre).
Qed.

Lemma attempt_license_head_failure (w : World) (compid appid : option Z)
    (s : state) :
  exists new,
    log (snd (attempt_body w compid appid "license" s)) = log s ++ new
    /\ forall u m,
         In (EvHead u (inl m)) new ->
         fst (attempt_body w compid appid "license" s)
         = Raise (OtherException m)
         /\ exists pre, new = pre ++ [EvHead u (inl m); EvRelease].
Proof.
  rewrite attempt_body_eq.
  destruct (engine_connect w (log s)) as [e|]; simpl.
  { eexists [_]. split; [reflexivity|]. intros u m [Hin|[]]. discriminate Hin. }
  destruct (cursor_execute w _ MainCursor _ _) as [e|]; simpl.
  { eexists [_; _; _]. rewrite <- !app_assoc. split; [reflexivity|].
    intros u m [Hin|[Hin|[Hin|[]]]]; discriminate Hin. }
  destruct (fetchall_rows w _) as [e|rows]; simpl.
  { eexists [_; _; _; _]. rewrite <- !app_assoc. split; [reflexivity|].
    intros u m [Hin|[Hin|[Hin|[Hin|[]]]]]; discriminate Hin. }
  match goal with |- context [for_each rows _ ?s3] =>
    destruct (license_loop_head_failure w rows s3) as (new & Hl & Hnew);
    destruct (for_each rows (process_row w "license") s3) as [[[]|e|] s4]
  end; simpl in *.
  all: eexists ([EvConnect None; _; _] ++ new ++ [EvRelease]).
  all: split; [rewrite Hl, <- !app_assoc; reflexivity|].
  all: intros u m Hin; simpl in Hin.
  all: destruct Hin as [Hin|[Hin|[Hin|Hin]]]; try discriminate Hin.
  all: apply in_app_or in Hin as [Hin|[Hin|[]]]; try discriminate Hin.
  all: destruct (Hnew u m Hin) as [Hr (pre & ->)]; try discriminate Hr.
  injection Hr as ->. split; [reflexivity|].
  eexists ([_; _; _] ++ pre). rewrite <- !app_assoc. reflexivity.
Qed.

Lemma retry_machine_license_head_failure (w : World)
    (compid appid : option Z) n s k r s' :
  retry_machine w compid appid "license" n s k r s' ->
  exists new,
    log s' = log s ++ new
    /\ forall u m,
         In (EvHead u (inl m)) new ->
         r = Failed (OtherException m)
         /\ exists pre, new = pre ++ [EvHead u (inl m); EvRelease].
Proof.
  machine_induction.
  2: {
    destruct IH as (new & Hl & Hnew).
    destruct (attempt_license_head_failure w compid appid s) as (new1 & Hl1 & Hnew1).
    rewrite Hb in Hl1, Hnew1. simpl in Hl1, Hnew1, Hl. rewrite Hl1 in Hl.
    exists (new1 ++ [EvLogError (retry_message w e n db_conn_retry);
                     EvSleep sleep_for_ms] ++ new).
    split; [by rewrite Hl, <- !app_assoc|].
    intros u m Hin. apply in_app_or in Hin as [Hin|Hin].
    - destruct (Hnew1 u m Hin) as [[= ->] _]. discriminate Ht.
    - destruct Hin as [Hin|[Hin|Hin]]; try discriminate Hin.
      destruct (Hnew u m Hin) as [Hr (pre & ->)]. split; [exact Hr|].
      eexists (new1 ++ [_; _] ++ pre). rewrite <- !app_assoc. reflexivity. }
  all: destruct (attempt_license_head_failure w compid appid s)
         as (new1 & Hl1 & Hnew1).
  all: rewrite Hb in Hl1, Hnew1; simpl in Hl1, Hnew1.
  all: exists new1; split; [exact Hl1|].
  all: intros u m Hin; destruct (Hnew1 u m Hin) as [Hr Hpre].
  all: try discriminate Hr.
  all: injection Hr as ->; by split.
Qed.

(** X10: a HEAD call that raises is not covered by the fallback: when any
    HEAD call of a license request raises, the request is answered 500 with
    the text of that exception as detail.  The failed call is the last the
    registry sees; the connection is handed back, the text is printed, and
    no further attempt is made. *)
Theorem failed_head_call_gives_500 (w : World) (c : cookies)
    (compid appid : option Z) (s : state) :
  exists new,
    log (snd (getCompPkgDeps w c compid appid "license" s)) = log s ++ new
    /\ forall u m,
         In (EvHead u (inl m)) new ->
         respond (fst (getCompPkgDeps w c compid appid "license" s))
         = Return {| resp_status := 500; resp_body := BodyDetail m |}
         /\ exists pre,
              new = pre ++ [EvHead u (inl m); EvRelease; EvPrint m].
Proof.
  destruct (decide (requests_get w (log s) (validate_endpoint w) c
                    = inr (Some 200))) as [Hok|Hno].
  - rewrite (getCompPkgDeps_authorized _ _ _ _ _ _ Hok).
    destruct (query_phase_machine w compid appid "license"
                (emit (EvGet (validate_endpoint w) c (inr (Some 200))) s))
      as (k & r & s' & Hm & ->).
    apply retry_machine_license_head_failure in Hm as (new & Hl & Hnew).
    simpl in Hl.
    destruct r as [dd|e]; simpl; [|destruct (is_http_exception e) eqn:Hh; simpl].
    + exists (EvGet (validate_endpoint w) c (inr (Some 200)) :: new).
      split; [by rewrite Hl, <- app_assoc|].
      intros u m [Hin|Hin]; [discriminate Hin|].
      by destruct (Hnew u m Hin) as [Hr _].
    + exists (EvGet (validate_endpoint w) c (inr (Some 200)) :: new).
      split; [by rewrite Hl, <- app_assoc|].
      intros u m [Hin|Hin]; [discriminate Hin|].
      destruct (Hnew u m Hin) as [[= ->] _]. discriminate Hh.
    + exists (EvGet (validate_endpoint w) c (inr (Some 200)) :: new
              ++ [EvPrint (str_exn w e)]).
      split; [by rewrite Hl, <- !app_assoc|].
      intros u m [Hin|Hin]; [discriminate Hin|].
      apply in_app_or in Hin as [Hin|[Hin|[]]]; [|discriminate Hin].
      destruct (Hnew u m Hin) as [[= ->] (pre & ->)]. simpl.
      split; [reflexivity|].
      exists (EvGet (validate_endpoint w) c (inr (Some 200)) :: pre).
      simpl. by rewrite <- !app_assoc.
  - rewrite (getCompPkgDeps_refused _ _ _ _ _ _ Hno). simpl.
    eexists. split; [reflexivity|].
    intros u m [Hin|[]]. discriminate Hin.
Qed.

Lemma failed_head_call_gives_500_witness :
  respond (fst (getCompPkgDeps world_registry_down [] (Some 42) None "license"
                  initial_state))
  = Return {| resp_status := 500;
              resp_body := BodyDetail "connection timed out" |}.
Proof.
  destruct (failed_head_call_gives_500 world_registry_down [] (Some 42) None
              initial_state) as (new & Hl & H).
  vm_compute in Hl. subst new.
  destruct (H "https://example.org/bsd" "connection timed out") as [Hr _];
    [simpl; tauto|exact Hr].
Defined.

(** ** What is carried from one request to the next *)

(** Two states with the same transcript and the same [response_data] go
    through a pass alike, whatever their memos hold. *)
Lemma attempt_body_leftover (w : World) (compid appid : option Z) (d : string)
    (s1 s2 : state) :
  log s1 = log s2 ->
  response_data s1 = response_data s2 ->
  fst (attempt_body w compid appid d s1) = fst (attempt_body w compid appid d s2)
  /\ log (snd (attempt_body w compid appid d s1))
     = log (snd (attempt_body w compid appid d s2))
  /\ response_data (snd (attempt_body w compid appid d s1))
     = response_data (snd (attempt_body w compid appid d s2)).
Proof.
  intros Hl Hr.
  rewrite !attempt_body_eq. unfold set_valid_url, emit. simpl.
  rewrite Hl, Hr.
  destruct (engine_connect w (log s2)) as [e|]; simpl; [done|].
  destruct (cursor_execute w _ MainCursor _ _) as [e|]; simpl; [done|].
  destruct (fetchall_rows w _) as [e|rows]; simpl; [done|].
  by destruct (for_each rows (process_row w d) _) as [[[]|e|] s4].
Qed.

Lemma query_loop_leftover (w : World) (compid appid : option Z) (d : string)
    (fuel : nat) :
  forall n s1 s2,
    log s1 = log s2 ->
    response_data s1 = response_data s2 ->
    fst (query_loop w fuel compid appid d db_conn_retry n s1)
    = fst (query_loop w fuel compid appid d db_conn_retry n s2)
    /\ log (snd (query_loop w fuel compid appid d db_conn_retry n s1))
       = log (snd (query_loop w fuel compid appid d db_conn_retry n s2))
    /\ response_data (snd (query_loop w fuel compid appid d db_conn_retry n s1))
       = response_data (snd (query_loop w fuel compid appid d db_conn_retry n s2)).
Proof.
  induction fuel as [|fuel IH]; intros n s1 s2 Hl Hr; [done|].
  simpl. unfold try_except.
  destruct (attempt_body_leftover w compid appid d s1 s2 Hl Hr) as (Ho & Hl' & Hr').
  destruct (attempt_body w compid appid d s1) as [o1 t1],
           (attempt_body w compid appid d s2) as [o2 t2].
  simpl in Ho, Hl', Hr'. subst o2.
  destruct o1 as [dd|e|]; [done| |done].
  destruct (transient e); [|done].
  destruct (n <? db_conn_retry); [|done].
  unfold bind, do_event. apply IH; simpl; by rewrite ?Hl', ?Hr'.
Qed.

(** X12: nothing a request finds in [response_data] or in the memo when
    it starts has a part in its answer: started from two states with the
    same transcript, the handler ends the same way and makes the same
    calls. *)
Theorem answer_ignores_leftover_state (w : World) (c : cookies)
    (compid appid : option Z) (d : string) (s1 s2 : state) :
  log s1 = log s2 ->
  fst (getCompPkgDeps w c compid appid d s1)
  = fst (getCompPkgDeps w c compid appid d s2)
  /\ log (snd (getCompPkgDeps w c compid appid d s1))
     = log (snd (getCompPkgDeps w c compid appid d s2)).
Proof.
  intros Hl.
  destruct (decide (requests_get w (log s2) (validate_endpoint w) c
                    = inr (Some 200))) as [Hok|Hno].
  - assert (Hok1 : requests_get w (log s1) (validate_endpoint w) c
                   = inr (Some 200)) by (by rewrite Hl).
    rewrite (getCompPkgDeps_authorized _ _ _ _ _ _ Hok),
            (getCompPkgDeps_authorized _ _ _ _ _ _ Hok1).
    unfold query_phase, bind, try_except. cbv beta iota.
    match goal with
    | |- context [query_loop w ?f compid appid d db_conn_retry 1 ?a] =>
        match goal with
        | |- context [query_loop w f compid appid d db_conn_retry 1 ?b] =>
            tryif constr_eq a b then fail else
              destruct (query_loop_leftover w compid appid d f 1 a b)
                as (Ho & Hl' & Hr'); [simpl; by rewrite Hl|reflexivity|];
              destruct (query_loop w f compid appid d db_conn_retry 1 a)
                as [o1 t1],
                (query_loop w f compid appid d db_conn_retry 1 b)
                as [o2 t2]
        end
    end.
    simpl in Ho, Hl', Hr'. subst o2.
    destruct o1 as [dd|e|]; [done| |done].
    destruct (is_http_exception e); simpl; [done|].
    by rewrite Hl'.
  - assert (Hno1 : requests_get w (log s1) (validate_endpoint w) c
                   <> inr (Some 200)) by (by rewrite Hl).
    rewrite (getCompPkgDeps_refused _ _ _ _ _ _ Hno),
            (getCompPkgDeps_refused _ _ _ _ _ _ Hno1).
    simpl. by rewrite Hl.
Qed.

Lemma answer_ignores_leftover_state_witness :
  fst (getCompPkgDeps world_up [] (Some 42) None "license" state_with_leftovers)
  = fst (getCompPkgDeps world_up [] (Some 42) None "license" initial_state)
  /\ log (snd (getCompPkgDeps world_up [] (Some 42) None "license"
                 state_with_leftovers))
     = log (snd (getCompPkgDeps world_up [] (Some 42) None "license"
                   initial_state)).
Proof.
  apply (answer_ignores_leftover_state world_up [] (Some 42) None "license"
           state_with_leftovers initial_state).
  reflexivity.
Defined.
